(** * vite-plugin-sri3: the HTML rewriting engine of [src/index.ts]

    A shallow embedding of the plugin's source.  JavaScript strings are
    sequences of UTF-16 code units, modelled as lists of numbers; offsets
    into them ([lastIndex], [insertPos], the arguments of [slice]) are
    integers, as JavaScript numbers are.  The bundle is the list of its
    entries in the order of its keys.  The asynchronous code is run in
    the order of its [await]s: a computation returns a value or throws,
    and leaves the trace of its bundle lookups and network fetches.  The
    network, the working directory and the conversion of a binary source
    to text are taken from a [Host]; the functions of the runtime the
    plugin calls ([path.posix.resolve], SHA-384, base64, UTF-8) are
    written out.  *)

From Stdlib Require Import List ZArith NArith Lia Bool Ascii String Sorted.
Import ListNotations.

Local Open Scope Z_scope.

(** ** Strings *)

Definition char16 := N.
Definition str := list char16.

(** The code units of a literal of the source. *)
Definition lit (s : string) : str := map N_of_ascii (list_ascii_of_string s).

Definition dquote : char16 := 34%N.
Definition squote : char16 := 39%N.

Definition len (s : str) : Z := Z.of_nat (List.length s).

(** The method [slice] of strings: a negative index counts from the end, and
    every index is clamped to the string. *)
Definition clampIndex (n i : Z) : Z :=
  if i <? 0 then Z.max (n + i) 0 else Z.min i n.

Definition slice (s : str) (from : Z) (to : option Z) : str :=
  let a := clampIndex (len s) from in
  let b := match to with Some e => clampIndex (len s) e | None => len s end in
  firstn (Z.to_nat (b - a)) (skipn (Z.to_nat a) s).

Definition char16_eqb : char16 -> char16 -> bool := N.eqb.

Fixpoint str_eqb (a b : str) : bool :=
  match a, b with
  | [], [] => true
  | x :: a', y :: b' => char16_eqb x y && str_eqb a' b'
  | _, _ => false
  end.

(** [String.prototype.startsWith]. *)
Fixpoint startsWith (s p : str) : bool :=
  match p, s with
  | [], _ => true
  | x :: p', y :: s' => char16_eqb x y && startsWith s' p'
  | _ :: _, [] => false
  end.

(** ** The HTML patcher (index.ts, lines 143-148) *)

Record Change := mkChange {
  integrity : str;
  crossoriginAttr : str;
  insertPos : Z
}.

(** The template of line 144: the integrity attribute, then the
    crossorigin attribute if any. *)
Definition insertText (c : Change) : str :=
  lit " integrity=" ++ [dquote] ++ integrity c ++ [dquote] ++ crossoriginAttr c.

(** The [for (const change of changes)] loop; [offset] starts at 0. *)
Fixpoint applyChanges (html : str) (offset : Z) (changes : list Change) : str :=
  match changes with
  | [] => html
  | change :: rest =>
      let t := insertText change in
      let html' := slice html 0 (Some (insertPos change + offset)) ++ t
                   ++ slice html (insertPos change + offset) None in
      applyChanges html' (offset + len t) rest
  end.

(** The sum of the lengths of the texts of a list of changes. *)
Definition insertedLength (cs : list Change) : Z :=
  fold_right (fun c n => len (insertText c) + n) 0 cs.

(** ** Regular expressions of the scanner (index.ts, lines 6-8)

    The three patterns are sequences of single characters and of
    character classes under [*] or [+], some of them inside a capture
    group; [regex] is the syntax of exactly that fragment.  Matching is
    JavaScript's: quantifiers are greedy and give back one character at a
    time when the rest of the pattern fails. *)

Inductive cls :=
| AnyOf (l : str)       (* [abc]  *)
| NoneOf (l : str).     (* [^abc] *)

Definition inClass (k : cls) (c : char16) : bool :=
  match k with
  | AnyOf l => existsb (char16_eqb c) l
  | NoneOf l => negb (existsb (char16_eqb c) l)
  end.

Inductive quant := One | Star | Plus.

Record atom := mkAtom {
  a_class : cls;
  a_quant : quant;
  a_group : bool      (* the atom is wrapped in a capture group *)
}.

Definition regex := list atom.

(** What a match at a fixed start gives: the number of code units it
    consumed and the texts of its capture groups, in order. *)
Definition matched : Type := nat * list str.

(** [x*] against [s], then the continuation [k] on what is left: the
    longest run first. *)
Fixpoint greedy {R : Type} (p : char16 -> bool) (k : str -> option R) (s : str)
  : option (str * R) :=
  match s with
  | c :: s' =>
      if p c then
        match greedy p k s' with
        | Some (g, r) => Some (c :: g, r)
        | None => option_map (pair []) (k s)
        end
      else option_map (pair []) (k s)
  | [] => option_map (pair []) (k s)
  end.

Definition matchAtom {R : Type} (a : atom) (k : str -> option R) (s : str)
  : option (str * R) :=
  let p := inClass (a_class a) in
  match a_quant a with
  | One =>
      match s with
      | c :: s' => if p c then option_map (pair [c]) (k s') else None
      | [] => None
      end
  | Star => greedy p k s
  | Plus =>
      match s with
      | c :: s' =>
          if p c then option_map (fun '(g, r) => (c :: g, r)) (greedy p k s')
          else None
      | [] => None
      end
  end.

Fixpoint matchHere (r : regex) : str -> option matched :=
  match r with
  | [] => fun _ => Some (0%nat, [])
  | a :: r' => fun s =>
      option_map
        (fun '(g, (n, gs)) =>
           ((List.length g + n)%nat, if a_group a then g :: gs else gs))
        (matchAtom a (matchHere r') s)
  end.

(** The leftmost start at or after position [i], [s] being the text from
    [i] on. *)
Fixpoint search (r : regex) (s : str) (i : nat) : option (nat * matched) :=
  match matchHere r s with
  | Some m => Some (i, m)
  | None =>
      match s with
      | [] => None
      | _ :: s' => search r s' (S i)
      end
  end.

(** A [RegExp] object with the [g] flag: its pattern and its mutable
    [lastIndex]. *)
Record RegExp := mkRegExp {
  pattern : regex;
  lastIndex : nat
}.

Record RegExpExecArray := mkMatch {
  m_index : nat;
  m_full : str;          (* match[0] *)
  m_groups : list str    (* match[1], match[2], ... *)
}.

(** [regex.exec(html)]: the match, if any, and the object with its new
    [lastIndex] (the end of the match, or 0 after a failure). *)
Definition exec (re : RegExp) (html : str) : option RegExpExecArray * RegExp :=
  if (List.length html <? lastIndex re)%nat then
    (None, mkRegExp (pattern re) 0)
  else
    match search (pattern re) (skipn (lastIndex re) html) (lastIndex re) with
    | Some (i, (n, gs)) =>
        (Some (mkMatch i (firstn n (skipn i html)) gs),
         mkRegExp (pattern re) (i + n))
    | None => (None, mkRegExp (pattern re) 0)
    end.

Definition chars (s : string) : regex :=
  map (fun c => mkAtom (AnyOf [c]) One false) (lit s).

(** The four classes of the patterns: a quote of either kind (Q below);
    anything but the angle brackets (T); anything but a space and the
    quotes (the url of a script); anything but a caret, a space and the
    quotes (the url of a link). *)
Definition quoteClass : cls := AnyOf [squote; dquote].
Definition tagClass : cls := NoneOf (lit "<>").
Definition srcClass : cls := NoneOf (lit " " ++ [squote; dquote]).
Definition hrefClass : cls := NoneOf (lit "^ " ++ [squote; dquote]).

Definition quotes : atom := mkAtom quoteClass Star false.
Definition group (k : cls) (q : quant) : atom := mkAtom k q true.

(** [<script], group 1 [T*], [Q*], [src], [Q*], [=], [Q*], group 2 (the
    url, one or more of its class), [Q*], group 3 [T*], and the closing
    bracket with the end tag. *)
Definition EXTERNAL_SCRIPT_RE : regex :=
  chars "<script" ++ [group tagClass Star; quotes] ++ chars "src"
  ++ [quotes] ++ chars "=" ++ [quotes; group srcClass Plus; quotes;
                                group tagClass Star]
  ++ chars "></script>".

(** The two link patterns differ in the value of [rel] only: [<link],
    group 1 [T*], [Q*], [rel], [Q*], [=], [Q*], the value, [Q*], [T+],
    [Q*], [href], [Q*], [=], one quote, group 2 (the url), one quote,
    group 3 [T*], and the closing bracket. *)
Definition linkPattern (rel : string) : regex :=
  chars "<link" ++ [group tagClass Star; quotes] ++ chars "rel"
  ++ [quotes] ++ chars "=" ++ [quotes] ++ chars rel
  ++ [quotes; mkAtom tagClass Plus false; quotes] ++ chars "href"
  ++ [quotes] ++ chars "="
  ++ [mkAtom quoteClass One false; group hrefClass Plus;
      mkAtom quoteClass One false; group tagClass Star]
  ++ chars ">".

Definition EXTERNAL_CSS_RE : regex := linkPattern "stylesheet".

Definition EXTERNAL_MODULE_RE : regex := linkPattern "modulepreload".

(** ** Options (index.ts, lines 12-19) *)

(** The values an option or a callback of the plugin can hold. *)
Inductive jsval :=
| JNull
| JBool (b : bool)
| JString (s : str).

(** [string | RegExp], for the entries whose answer does not depend on
    the calls before: a string, or a [RegExp] without the [g] and [y]
    flags, used through [test] alone, which is then a function of the
    url.  The entries with one of these flags keep a [lastIndex] between
    the calls: they are the [PatternObject]s below. *)
Inductive Pattern :=
| PString (s : str)
| PRegExp (test : str -> bool).

(** An absent property is [None]. *)
Record SriOptions := mkSriOptions {
  ignoreMissingAssets : option bool;
  crossorigin : option jsval;
  customCrossorigin : option (str -> jsval);
  excludeExternal : option bool;
  excludePatterns : option (list Pattern);
  includePatterns : option (list Pattern)
}.

Definition noOptions : SriOptions :=
  mkSriOptions None None None None None None.

(** ** The filter and the crossorigin policy (index.ts, lines 38-80) *)

Definition isExternalUrl (url : str) : bool :=
  startsWith url (lit "http://") || startsWith url (lit "https://")
  || startsWith url (lit "//").

(** [String.prototype.includes]. *)
Fixpoint includes (s p : str) : bool :=
  startsWith s p ||
  match s with
  | [] => false
  | _ :: s' => includes s' p
  end.

Definition matchesPattern (url : str) (pattern : Pattern) : bool :=
  match pattern with
  | PString p => includes url p
  | PRegExp test => test url
  end.

Definition matchesPatterns (url : str) (patterns : list Pattern) : bool :=
  existsb (matchesPattern url) patterns.

Definition truthy (b : option bool) : bool :=
  match b with Some true => true | _ => false end.

Definition shouldProcessUrl (url : str) (options : SriOptions) : bool :=
  if truthy (excludeExternal options) && isExternalUrl url then false
  else if match excludePatterns options with
          | Some ps => matchesPatterns url ps
          | None => false
          end then false
  else if match includePatterns options with
          | Some ps => negb (matchesPatterns url ps)
          | None => false
          end then false
  else true.

(** ** Patterns as objects: [test] on a regular expression with flags

    The entries of [excludePatterns] and [includePatterns] are the same
    objects for every url of a build.  A [RegExp] with the [g] or the [y]
    flag keeps its [lastIndex] from one call of [test] to the next, and
    nothing in lines 42-65 resets it. *)

Record PatternRegExp := mkPatternRegExp {
  global : bool;          (* the g flag *)
  sticky : bool;          (* the y flag *)
  regExp : RegExp         (* the pattern and lastIndex *)
}.

Definition found {A : Type} (o : option A) : bool :=
  match o with Some _ => true | None => false end.

(** [r.test(s)], the answer and the object afterwards.  With [y] the
    match has to start at [lastIndex]; with [g] alone the search starts
    there, as for [exec]; in both cases [lastIndex] becomes the end of the
    match, or 0 after a failure.  Without either flag the search starts
    at 0 and the object stays as it is. *)
Definition test (r : PatternRegExp) (s : str) : bool * PatternRegExp :=
  let re := regExp r in
  let reset := mkPatternRegExp (global r) (sticky r) (mkRegExp (pattern re) 0) in
  if sticky r then
    if (List.length s <? lastIndex re)%nat then (false, reset)
    else
      match matchHere (pattern re) (skipn (lastIndex re) s) with
      | Some (n, _) =>
          (true, mkPatternRegExp (global r) true
                                 (mkRegExp (pattern re) (lastIndex re + n)))
      | None => (false, reset)
      end
  else if global r then
    let '(m, re') := exec re s in
    (found m, mkPatternRegExp true false re')
  else (found (fst (exec (mkRegExp (pattern re) 0) s)), r).

(** [string | RegExp], a [RegExp] with its flags and its state. *)
Inductive PatternObject :=
| OString (s : str)
| ORegExp (r : PatternRegExp).

(** [matchesPatterns] of lines 42-49 on such objects: [some] calls the
    entries in order and stops at the first that answers true; the
    entries it called are left as [test] left them. *)
Fixpoint matchesPatternObjects (url : str) (patterns : list PatternObject)
  : bool * list PatternObject :=
  match patterns with
  | [] => (false, [])
  | OString p :: rest =>
      if includes url p then (true, patterns)
      else
        let '(b, rest') := matchesPatternObjects url rest in
        (b, OString p :: rest')
  | ORegExp r :: rest =>
      let '(b, r') := test r url in
      if b then (true, ORegExp r' :: rest)
      else
        let '(b', rest') := matchesPatternObjects url rest in
        (b', ORegExp r' :: rest')
  end.

(** The two lists of a build. *)
Record PatternObjects := mkPatternObjects {
  excludeObjects : option (list PatternObject);
  includeObjects : option (list PatternObject)
}.

(** [shouldProcessUrl] of lines 51-65 on such objects: the answer and
    the lists afterwards. *)
Definition shouldProcessUrlOn (excludeExternal : option bool) (url : str)
           (objects : PatternObjects) : bool * PatternObjects :=
  if truthy excludeExternal && isExternalUrl url then (false, objects)
  else
    let '(excluded, objects) :=
      match excludeObjects objects with
      | Some ps =>
          let '(b, ps') := matchesPatternObjects url ps in
          (b, mkPatternObjects (Some ps') (includeObjects objects))
      | None => (false, objects)
      end in
    if excluded then (false, objects)
    else
      match includeObjects objects with
      | Some ps =>
          let '(b, ps') := matchesPatternObjects url ps in
          (b, mkPatternObjects (excludeObjects objects) (Some ps'))
      | None => (true, objects)
      end.

(** The calls of line 130 for the urls of the successive matches of a
    build, on the same objects: the answers, in order. *)
Fixpoint shouldProcessEach (excludeExternal : option bool) (urls : list str)
         (objects : PatternObjects) : list bool :=
  match urls with
  | [] => []
  | url :: rest =>
      let '(b, objects') := shouldProcessUrlOn excludeExternal url objects in
      b :: shouldProcessEach excludeExternal rest objects'
  end.

(** An entry without state, and the [Pattern] it is. *)
Definition stateless (p : PatternObject) : bool :=
  match p with
  | OString _ => true
  | ORegExp r => negb (global r) && negb (sticky r)
  end.

Definition patternOf (p : PatternObject) : Pattern :=
  match p with
  | OString s => PString s
  | ORegExp r => PRegExp (fun url => fst (test r url))
  end.

Definition statelessObjects (objects : PatternObjects) : Prop :=
  (forall ps, excludeObjects objects = Some ps -> forallb stateless ps = true) /\
  (forall ps, includeObjects objects = Some ps -> forallb stateless ps = true).

Definition optionsOf (excludeExternal : option bool) (objects : PatternObjects)
  : SriOptions :=
  mkSriOptions None None None excludeExternal
               (option_map (map patternOf) (excludeObjects objects))
               (option_map (map patternOf) (includeObjects objects)).

Definition anonymous : str := lit " crossorigin=" ++ [dquote] ++ lit "anonymous" ++ [dquote].

Definition crossoriginWith (value : str) : str :=
  lit " crossorigin=" ++ [dquote] ++ value ++ [dquote].

(** The rules of lines 75-79, on the static option. *)
Definition staticCrossorigin (url : str) (options : SriOptions) : str :=
  match crossorigin options with
  | Some (JBool false) | Some JNull => []
  | Some (JBool true) => anonymous
  | Some (JString s) => crossoriginWith s
  | None => if isExternalUrl url then anonymous else []
  end.

Definition getCrossoriginAttribute (url : str) (options : SriOptions) : str :=
  match customCrossorigin options with
  | Some custom =>
      match custom url with
      | JNull | JBool false => []
      | JBool true => anonymous
      | JString s => crossoriginWith s
      end
  | None => staticCrossorigin url options
  end.

(** ** Bytes, UTF-8, SHA-384 and base64

    The functions of the Node runtime the digest goes through:
    [createHash], which reads a string as its UTF-8 bytes, and the base64
    form of a buffer. *)

Definition byte := Byte.byte.

Definition byteOfZ (z : Z) : byte :=
  match Byte.of_N (Z.to_N (z mod 256)) with
  | Some b => b
  | None => Byte.x00
  end.

Definition zOfByte (b : byte) : Z := Z.of_N (Byte.to_N b).

Definition replacement : list Z := [0xEF; 0xBF; 0xBD].

Definition utf8OfPoint (p : Z) : list Z :=
  if p <? 0x80 then [p]
  else if p <? 0x800 then [Z.lor 0xC0 (Z.shiftr p 6); Z.lor 0x80 (Z.land p 0x3F)]
  else if p <? 0x10000 then
    [Z.lor 0xE0 (Z.shiftr p 12); Z.lor 0x80 (Z.land (Z.shiftr p 6) 0x3F);
     Z.lor 0x80 (Z.land p 0x3F)]
  else
    [Z.lor 0xF0 (Z.shiftr p 18); Z.lor 0x80 (Z.land (Z.shiftr p 12) 0x3F);
     Z.lor 0x80 (Z.land (Z.shiftr p 6) 0x3F); Z.lor 0x80 (Z.land p 0x3F)].

Definition isHighSurrogate (c : Z) : bool := (0xD800 <=? c) && (c <? 0xDC00).
Definition isLowSurrogate (c : Z) : bool := (0xDC00 <=? c) && (c <? 0xE000).

(** The UTF-8 bytes of a string: a surrogate pair is one code point, a
    lone surrogate is written as U+FFFD. *)
Fixpoint utf8Z (s : str) : list Z :=
  match s with
  | [] => []
  | c :: s' =>
      let c := Z.of_N c in
      if isHighSurrogate c then
        match s' with
        | d :: s'' =>
            let d := Z.of_N d in
            if isLowSurrogate d then
              utf8OfPoint (0x10000 + Z.shiftl (c - 0xD800) 10 + (d - 0xDC00))
              ++ utf8Z s''
            else replacement ++ utf8Z s'
        | [] => replacement
        end
      else if isLowSurrogate c then replacement ++ utf8Z s'
      else utf8OfPoint c ++ utf8Z s'
  end.

Definition utf8 (s : str) : list byte := map byteOfZ (utf8Z s).

Module Sha384.

Definition mask : Z := Z.ones 64.
Definition add (x y : Z) : Z := Z.land (x + y) mask.
Definition rotr (n x : Z) : Z :=
  Z.land (Z.lor (Z.shiftr x n) (Z.shiftl x (64 - n))) mask.
Definition shr (n x : Z) : Z := Z.shiftr x n.
Definition lnot (x : Z) : Z := Z.lxor x mask.

Definition Ch (x y z : Z) : Z := Z.lxor (Z.land x y) (Z.land (lnot x) z).
Definition Maj (x y z : Z) : Z :=
  Z.lxor (Z.lxor (Z.land x y) (Z.land x z)) (Z.land y z).
Definition Sigma0 (x : Z) : Z := Z.lxor (Z.lxor (rotr 28 x) (rotr 34 x)) (rotr 39 x).
Definition Sigma1 (x : Z) : Z := Z.lxor (Z.lxor (rotr 14 x) (rotr 18 x)) (rotr 41 x).
Definition sigma0 (x : Z) : Z := Z.lxor (Z.lxor (rotr 1 x) (rotr 8 x)) (shr 7 x).
Definition sigma1 (x : Z) : Z := Z.lxor (Z.lxor (rotr 19 x) (rotr 61 x)) (shr 6 x).

Definition K : list Z := [
  0x428a2f98d728ae22; 0x7137449123ef65cd; 0xb5c0fbcfec4d3b2f;
  0xe9b5dba58189dbbc; 0x3956c25bf348b538; 0x59f111f1b605d019;
  0x923f82a4af194f9b; 0xab1c5ed5da6d8118; 0xd807aa98a3030242;
  0x12835b0145706fbe; 0x243185be4ee4b28c; 0x550c7dc3d5ffb4e2;
  0x72be5d74f27b896f; 0x80deb1fe3b1696b1; 0x9bdc06a725c71235;
  0xc19bf174cf692694; 0xe49b69c19ef14ad2; 0xefbe4786384f25e3;
  0x0fc19dc68b8cd5b5; 0x240ca1cc77ac9c65; 0x2de92c6f592b0275;
  0x4a7484aa6ea6e483; 0x5cb0a9dcbd41fbd4; 0x76f988da831153b5;
  0x983e5152ee66dfab; 0xa831c66d2db43210; 0xb00327c898fb213f;
  0xbf597fc7beef0ee4; 0xc6e00bf33da88fc2; 0xd5a79147930aa725;
  0x06ca6351e003826f; 0x142929670a0e6e70; 0x27b70a8546d22ffc;
  0x2e1b21385c26c926; 0x4d2c6dfc5ac42aed; 0x53380d139d95b3df;
  0x650a73548baf63de; 0x766a0abb3c77b2a8; 0x81c2c92e47edaee6;
  0x92722c851482353b; 0xa2bfe8a14cf10364; 0xa81a664bbc423001;
  0xc24b8b70d0f89791; 0xc76c51a30654be30; 0xd192e819d6ef5218;
  0xd69906245565a910; 0xf40e35855771202a; 0x106aa07032bbd1b8;
  0x19a4c116b8d2d0c8; 0x1e376c085141ab53; 0x2748774cdf8eeb99;
  0x34b0bcb5e19b48a8; 0x391c0cb3c5c95a63; 0x4ed8aa4ae3418acb;
  0x5b9cca4f7763e373; 0x682e6ff3d6b2b8a3; 0x748f82ee5defb2fc;
  0x78a5636f43172f60; 0x84c87814a1f0ab72; 0x8cc702081a6439ec;
  0x90befffa23631e28; 0xa4506cebde82bde9; 0xbef9a3f7b2c67915;
  0xc67178f2e372532b; 0xca273eceea26619c; 0xd186b8c721c0c207;
  0xeada7dd6cde0eb1e; 0xf57d4f7fee6ed178; 0x06f067aa72176fba;
  0x0a637dc5a2c898a6; 0x113f9804bef90dae; 0x1b710b35131c471b;
  0x28db77f523047d84; 0x32caab7b40c72493; 0x3c9ebe0a15c9bebc;
  0x431d67c49c100d4c; 0x4cc5d4becb3e42b6; 0x597f299cfc657e2a;
  0x5fcb6fab3ad6faec; 0x6c44198c4a475817 ].

Definition H0 : list Z := [
  0xcbbb9d5dc1059ed8; 0x629a292a367cd507; 0x9159015a3070dd17;
  0x152fecd8f70e5939; 0x67332667ffc00b31; 0x8eb44a8768581511;
  0xdb0c2e0d64f98fa7; 0x47b5481dbefa4fa4 ].

(** Big-endian bytes of a number, [n] of them, and back. *)
Fixpoint bigEndian (n : nat) (x : Z) : list Z :=
  match n with
  | O => []
  | S n' => bigEndian n' (Z.shiftr x 8) ++ [Z.land x 255]
  end.

Definition word (bs : list Z) : Z :=
  fold_left (fun acc b => Z.lor (Z.shiftl acc 8) b) bs 0.

(** The message, the byte 0x80, zeros up to 112 modulo 128, and the
    length in bits on 16 bytes. *)
Definition pad (msg : list Z) : list Z :=
  let n := Z.of_nat (List.length msg) in
  let zeros := Z.to_nat ((111 - n) mod 128) in
  msg ++ [0x80] ++ repeat 0 zeros ++ bigEndian 16 (8 * n).

Fixpoint chunksOf (count size : nat) (l : list Z) : list (list Z) :=
  match count with
  | O => []
  | S count' => firstn size l :: chunksOf count' size (skipn size l)
  end.

(** The message schedule, latest word first: [w] holds W(t-1), W(t-2),
    ... and grows by [n] words. *)
Fixpoint extend (n : nat) (w : list Z) : list Z :=
  match n with
  | O => w
  | S n' =>
      let next := add (add (sigma1 (nth 1 w 0)) (nth 6 w 0))
                      (add (sigma0 (nth 14 w 0)) (nth 15 w 0)) in
      extend n' (next :: w)
  end.

Definition schedule (block : list Z) : list Z :=
  rev (extend 64 (rev (map word (chunksOf 16 8 block)))).

Definition round (s : list Z) (kw : Z * Z) : list Z :=
  match s with
  | [a; b; c; d; e; f; g; h] =>
      let t1 := add (add (add h (Sigma1 e)) (add (Ch e f g) (fst kw))) (snd kw) in
      let t2 := add (Sigma0 a) (Maj a b c) in
      [add t1 t2; a; b; c; add d t1; e; f; g]
  | _ => s
  end.

Definition compress (h : list Z) (block : list Z) : list Z :=
  let s := fold_left round (combine K (schedule block)) h in
  map (fun p => add (fst p) (snd p)) (combine h s).

(** The digest: the first six words of the final state, 48 bytes. *)
Definition digestZ (msg : list Z) : list Z :=
  let padded := pad msg in
  let blocks := chunksOf (List.length padded / 128) 128 padded in
  flat_map (bigEndian 8) (firstn 6 (fold_left compress blocks H0)).

End Sha384.

Definition sha384 (data : list byte) : list byte :=
  map byteOfZ (Sha384.digestZ (map zOfByte data)).

Definition base64Alphabet : str :=
  lit "ABCDEFGHIJKLMNOPQRSTUVWXYZabcdefghijklmnopqrstuvwxyz0123456789+/".

Definition sextet (n : Z) : char16 := nth (Z.to_nat (n mod 64)) base64Alphabet 0%N.

Definition equalsSign : char16 := 61%N.

(** Standard base64, with padding. *)
Fixpoint base64Z (bs : list Z) : str :=
  match bs with
  | a :: b :: c :: rest =>
      let n := a * 65536 + b * 256 + c in
      [sextet (n / 262144); sextet (n / 4096); sextet (n / 64); sextet n]
      ++ base64Z rest
  | [a; b] =>
      let n := a * 65536 + b * 256 in
      [sextet (n / 262144); sextet (n / 4096); sextet (n / 64); equalsSign]
  | [a] =>
      let n := a * 65536 in
      [sextet (n / 262144); sextet (n / 4096); equalsSign; equalsSign]
  | [] => []
  end.

Definition base64 (bs : list byte) : str := base64Z (map zOfByte bs).

(** Line 119: the integrity value of a buffer. *)
Definition digest (content : list byte) : str :=
  lit "sha384-" ++ base64 (sha384 content).

(** ** Paths: [path.posix.resolve] of the Node runtime

    The arguments are joined from the right until one of them is absolute,
    the working directory coming last; the result is normalized segment by
    segment. *)

Definition slash : char16 := 47%N.

Fixpoint splitSlash (s : str) : list str :=
  match s with
  | [] => [[]]
  | c :: s' =>
      if char16_eqb c slash then [] :: splitSlash s'
      else match splitSlash s' with
           | seg :: segs => (c :: seg) :: segs
           | [] => [[c]]
           end
  end.

Fixpoint joinSlash (segs : list str) : str :=
  match segs with
  | [] => []
  | [seg] => seg
  | seg :: rest => seg ++ [slash] ++ joinSlash rest
  end.

(** One segment against the segments kept so far, the last one first. *)
Definition normalizeStep (allowAboveRoot : bool) (kept : list str) (seg : str)
  : list str :=
  if str_eqb seg [] || str_eqb seg (lit ".") then kept
  else if str_eqb seg (lit "..") then
    match kept with
    | top :: rest =>
        if str_eqb top (lit "..") then
          (if allowAboveRoot then seg :: kept else kept)
        else rest
    | [] => if allowAboveRoot then [seg] else []
    end
  else seg :: kept.

Definition normalizeString (path : str) (allowAboveRoot : bool) : str :=
  joinSlash (rev (fold_left (normalizeStep allowAboveRoot) (splitSlash path) [])).

(** The loop over the arguments, last first; empty ones are skipped. *)
Fixpoint resolveLoop (paths : list str) (resolvedPath : str) : str * bool :=
  match paths with
  | [] => (resolvedPath, false)
  | [] :: rest => resolveLoop rest resolvedPath
  | (c :: _) as path :: rest =>
      let resolvedPath' := path ++ [slash] ++ resolvedPath in
      if char16_eqb c slash then (resolvedPath', true)
      else resolveLoop rest resolvedPath'
  end.

Definition posixResolve (cwd : str) (args : list str) : str :=
  let '(resolvedPath, resolvedAbsolute) := resolveLoop (rev args ++ [cwd]) [] in
  let normalized := normalizeString resolvedPath (negb resolvedAbsolute) in
  if resolvedAbsolute then slash :: normalized
  else match normalized with [] => lit "." | _ => normalized end.

(** [s.replace(p, empty)] with a string [p]: the first occurrence of
    [p] goes. *)
Fixpoint removeFirst (s p : str) : str :=
  if startsWith s p then skipn (List.length p) s
  else match s with
       | [] => []
       | c :: s' => c :: removeFirst s' p
       end.

(** ** The bundle *)

Inductive Source :=
| SourceText (text : str)
| SourceBytes (bytes : list byte).

Inductive BundleItem :=
| Chunk (fileName : str) (code : str)
| Asset (fileName : str) (source : Source).

(** An object whose keys are output paths, in the order [for ... in]
    visits them. *)
Definition Bundle := list (str * BundleItem).

Fixpoint lookup (key : str) (bundle : Bundle) : option BundleItem :=
  match bundle with
  | [] => None
  | (k, item) :: rest => if str_eqb k key then Some item else lookup key rest
  end.

(** Assignment to the entry of a key that is present. *)
Fixpoint store (key : str) (item : BundleItem) (bundle : Bundle) : Bundle :=
  match bundle with
  | [] => []
  | (k, old) :: rest =>
      if str_eqb k key then (k, item) :: rest
      else (k, old) :: store key item rest
  end.

(** ** What the build environment supplies *)

Record Host := mkHost {
  cwd : str;                               (* process.cwd() *)
  fetch : str -> option (list byte);       (* the body, or a rejection *)
  bytesToString : list byte -> str         (* toString() of a binary source *)
}.

(** ** Effects: what a run does and how it ends *)

Inductive event :=
| Fetched (url : str)
| LookedUp (key : str).

(** The errors the plugin throws itself, and the rejection of a fetch.
    What the code of the user may throw is not among them: a
    [customCrossorigin] function is taken as one that returns. *)
Inductive error :=
| AssetNotFound (url : str)      (* Asset ... not found in bundle *)
| FetchFailed (url : str)
| UnsupportedVite.               (* the analysis plugin is missing *)

Inductive outcome (A : Type) :=
| Returned (a : A)
| Thrown (e : error)
| Unfinished.                    (* the model ran out of fuel *)

Arguments Returned {A} a.
Arguments Thrown {A} e.
Arguments Unfinished {A}.

(** A computation: its outcome and the trace of its lookups and fetches. *)
Definition Eff (A : Type) : Type := outcome A * list event.

Definition ret {A : Type} (a : A) : Eff A := (Returned a, []).
Definition throw {A : Type} (e : error) : Eff A := (Thrown e, []).
Definition emit (e : event) : Eff unit := (Returned tt, [e]).

Definition bind {A B : Type} (m : Eff A) (f : A -> Eff B) : Eff B :=
  match m with
  | (Returned a, t) => let '(r, t') := f a in (r, t ++ t')
  | (Thrown e, t) => (Thrown e, t)
  | (Unfinished, t) => (Unfinished, t)
  end.

Notation "x <- m ;; k" := (bind m (fun x => k))
  (at level 61, m at next level, right associativity).
Notation "m ;;; k" := (bind m (fun _ => k))
  (at level 61, right associativity).

(** ** The resolver (index.ts, lines 98-120) *)

Section Resolver.

Variable host : Host.
Variable base : str.                  (* config.base *)
Variable ignoreMissingAsset : bool.
Variable bundle : Bundle.

Definition getBundleKey (htmlPath url : str) : str :=
  if str_eqb base (lit "./") || str_eqb base [] then
    posixResolve (cwd host) [htmlPath; url]
  else removeFirst url base.

Definition content (item : BundleItem) : list byte :=
  match item with
  | Chunk _ code => utf8 code
  | Asset _ (SourceText text) => utf8 text
  | Asset _ (SourceBytes bytes) => bytes
  end.

(** [null] is [None]. *)
Definition calculateIntegrity (htmlPath url : str) : Eff (option str) :=
  if startsWith url (lit "http") then
    emit (Fetched url) ;;;
    match fetch host url with
    | Some body => ret (Some (digest body))
    | None => throw (FetchFailed url)
    end
  else
    let key := getBundleKey htmlPath url in
    emit (LookedUp key) ;;;
    match lookup key bundle with
    | None =>
        if ignoreMissingAsset then ret None
        else throw (AssetNotFound url)
    | Some bundleItem => ret (Some (digest (content bundleItem)))
    end.

End Resolver.

(** ** Options after destructuring (index.ts, lines 83-90) *)

Definition orElse {A : Type} (o : option A) (d : A) : A :=
  match o with Some a => a | None => d end.

(** The locals of [sri]: each option, or its default when it is absent.
    [includePatterns] and [customCrossorigin] have no default. *)
Definition withDefaults (options : option SriOptions) : SriOptions :=
  let o := orElse options noOptions in
  mkSriOptions (Some (orElse (ignoreMissingAssets o) false))
               (Some (orElse (crossorigin o) (JBool true)))
               (customCrossorigin o)
               (Some (orElse (excludeExternal o) false))
               (Some (orElse (excludePatterns o) []))
               (includePatterns o).

(** The object literal of line 130. *)
Definition filterOptions (o : SriOptions) : SriOptions :=
  mkSriOptions None None (customCrossorigin o) (excludeExternal o)
               (excludePatterns o) (includePatterns o).

(** The object literal of line 138. *)
Definition crossoriginOptions (o : SriOptions) : SriOptions :=
  mkSriOptions None (crossorigin o) (customCrossorigin o) None None None.

(** ** One pass over a document (index.ts, lines 122-149) *)

Section Pass.

Variable host : Host.
Variable base : str.
Variable locals : SriOptions.         (* the result of [withDefaults] *)
Variable bundle : Bundle.

Definition ignoreMissingAsset : bool := truthy (ignoreMissingAssets locals).

(** The [while] loop: [regex] carries its [lastIndex] from one [exec]
    to the next, [changes] grows at its end. *)
Fixpoint whileExec (fuel : nat) (regex : RegExp) (endOffset : Z)
         (htmlPath html : str) (changes : list Change)
  : Eff (list Change) :=
  match fuel with
  | O => (Unfinished, [])
  | S fuel' =>
      match exec regex html with
      | (None, _) => ret changes
      | (Some m, regex') =>
          let url := nth 1 (m_groups m) [] in
          if negb (shouldProcessUrl url (filterOptions locals)) then
            whileExec fuel' regex' endOffset htmlPath html changes
          else
            let end_ := Z.of_nat (lastIndex regex') in
            integrity <- calculateIntegrity host base ignoreMissingAsset
                                            bundle htmlPath url ;;
            match integrity with
            | None => whileExec fuel' regex' endOffset htmlPath html changes
            | Some integrity =>
                let crossoriginAttr :=
                  getCrossoriginAttribute url (crossoriginOptions locals) in
                let insertPos := end_ - endOffset in
                whileExec fuel' regex' endOffset htmlPath html
                          (changes ++ [mkChange integrity crossoriginAttr insertPos])
            end
      end
  end.

(** The changes of a pass.  Line 126 assigns 0 to [lastIndex] whatever
    the object held; every match but the last failing [exec] moves
    [lastIndex] forward, so one more step than the text has code units
    is enough for the loop. *)
Definition collectChanges (regex : RegExp) (endOffset : Z)
           (htmlPath html : str) : Eff (list Change) :=
  whileExec (S (List.length html)) (mkRegExp (pattern regex) 0)
            endOffset htmlPath html [].

Definition transformHTML (regex : RegExp) (endOffset : Z)
           (htmlPath html : str) : Eff str :=
  changes <- collectChanges regex endOffset htmlPath html ;;
  ret (applyChanges html 0 changes).

End Pass.

(** ** The hook body (index.ts, lines 97-164) *)

Definition endsWith (s suffix : str) : bool := startsWith (rev s) (rev suffix).

Definition sourceToString (host : Host) (source : Source) : str :=
  match source with
  | SourceText text => text
  | SourceBytes bytes => bytesToString host bytes
  end.

(** The three module-level [RegExp] objects, as a pass finds them. *)
Record Scanners := mkScanners {
  scriptRe : RegExp;
  cssRe : RegExp;
  moduleRe : RegExp
}.

Definition freshScanners : Scanners :=
  mkScanners (mkRegExp EXTERNAL_SCRIPT_RE 0) (mkRegExp EXTERNAL_CSS_RE 0)
             (mkRegExp EXTERNAL_MODULE_RE 0).

(** How a run of the hook ends: its outcome, its trace, and the bundle as
    the run leaves it. *)
Record Run := mkRun {
  run_outcome : outcome unit;
  run_trace : list event;
  run_bundle : Bundle
}.

Section GenerateBundle.

Variable host : Host.
Variable base : str.
Variable locals : SriOptions.
Variable scanners : Scanners.

(** The three passes over the text of the document [name]. *)
Definition threePasses (bundle : Bundle) (name html : str) : Eff str :=
  html <- transformHTML host base locals bundle (scriptRe scanners) 10 name html ;;
  html <- transformHTML host base locals bundle (cssRe scanners) 1 name html ;;
  transformHTML host base locals bundle (moduleRe scanners) 1 name html.

(** The body of the [for ... in] loop for one key. *)
Definition visit (bundle : Bundle) (name : str) : Run :=
  match lookup name bundle with
  | Some (Asset fileName source) =>
      if endsWith fileName (lit ".html") || endsWith fileName (lit ".htm") then
        match threePasses bundle name (sourceToString host source) with
        | (Returned html, t) =>
            mkRun (Returned tt) t (store name (Asset fileName (SourceText html)) bundle)
        | (Thrown e, t) => mkRun (Thrown e) t bundle
        | (Unfinished, t) => mkRun Unfinished t bundle
        end
      else mkRun (Returned tt) [] bundle
  | _ => mkRun (Returned tt) [] bundle
  end.

Fixpoint forIn (names : list str) (bundle : Bundle) : Run :=
  match names with
  | [] => mkRun (Returned tt) [] bundle
  | name :: rest =>
      let r := visit bundle name in
      match run_outcome r with
      | Returned _ =>
          let r' := forIn rest (run_bundle r) in
          mkRun (run_outcome r') (run_trace r ++ run_trace r') (run_bundle r')
      | _ => r
      end
  end.

Definition generateBundle (bundle : Bundle) : Run :=
  forIn (map fst bundle) bundle.

End GenerateBundle.

(** ** The hook adapter (index.ts, lines 21-36 and 166-171) *)

Definition GenerateBundle := Bundle -> Run.

(** [await first(...); await second(...)] on the same bundle. *)
Definition andThen (first second : GenerateBundle) : GenerateBundle :=
  fun bundle =>
    let r := first bundle in
    match run_outcome r with
    | Returned _ =>
        let r' := second (run_bundle r) in
        mkRun (run_outcome r') (run_trace r ++ run_trace r') (run_bundle r')
    | _ => r
    end.

(** The [generateBundle] property of a plugin: absent, a function, or an
    object whose [handler] is a function or is absent. *)
Inductive Hook :=
| HookUndefined
| HookFunction (fn : GenerateBundle)
| HookObject (handler : option GenerateBundle).

Record Plugin := mkPlugin {
  name : str;
  generateBundleHook : Hook
}.

Definition hijackGenerateBundle (plugin : Plugin) (afterHook : GenerateBundle)
  : Plugin :=
  let hook := generateBundleHook plugin in
  let plugin :=
    match hook with
    | HookObject (Some fn) =>
        mkPlugin (name plugin) (HookObject (Some (andThen fn afterHook)))
    | _ => plugin
    end in
  match hook with
  | HookFunction fn => mkPlugin (name plugin) (HookFunction (andThen fn afterHook))
  | _ => plugin
  end.

Definition VITE_INTERNAL_ANALYSIS_PLUGIN : str := lit "vite:build-import-analysis".

Record ResolvedConfig := mkConfig {
  config_base : str;
  config_plugins : list Plugin
}.

(** [config.plugins.find(...)] and the call of line 171, the plugin found
    being changed where it stands in the list. *)
Fixpoint hijackFirst (plugins : list Plugin) (afterHook : GenerateBundle)
  : option (list Plugin) :=
  match plugins with
  | [] => None
  | p :: rest =>
      if str_eqb (name p) VITE_INTERNAL_ANALYSIS_PLUGIN then
        Some (hijackGenerateBundle p afterHook :: rest)
      else option_map (cons p) (hijackFirst rest afterHook)
  end.

(** [configResolved] of the plugin [sri(options)]: the plugins of the
    configuration afterwards, or the error of line 168. *)
Definition configResolved (host : Host) (scanners : Scanners)
           (options : option SriOptions) (config : ResolvedConfig)
  : outcome (list Plugin) :=
  let afterHook :=
    generateBundle host (config_base config) (withDefaults options) scanners in
  match hijackFirst (config_plugins config) afterHook with
  | Some plugins => Returned plugins
  | None => Thrown UnsupportedVite
  end.

(** ** Notions the properties are stated with *)

(** What the patterns mean: a text matches a pattern when it splits
    into one piece for each atom, a piece being one character of the
    class, any number of them, or one or more of them. *)
Definition matchesAtom (a : atom) (piece : str) : Prop :=
  Forall (fun c => inClass (a_class a) c = true) piece /\
  match a_quant a with
  | One => List.length piece = 1%nat
  | Star => True
  | Plus => (1 <= List.length piece)%nat
  end.

Fixpoint matchesText (r : regex) (text : str) : Prop :=
  match r with
  | [] => text = []
  | a :: r' =>
      exists piece rest,
        text = piece ++ rest /\ matchesAtom a piece /\ matchesText r' rest
  end.

(** The changes whose positions lie in a text of [n0] code units. *)
Definition inRange (n0 : Z) (cs : list Change) : Prop :=
  Forall (fun c => 0 <= insertPos c <= n0) cs.

Definition atomMin (a : atom) : nat :=
  match a_quant a with Star => 0 | _ => 1 end.

(** The least number of code units a match of the pattern has: one for
    every atom that is not under a star. *)
Definition minLength (r : regex) : nat :=
  List.length (filter (fun a => match a_quant a with Star => false | _ => true end) r).

(** What the loop reads off a match: the url of group 2 and the end of
    the match. *)
Definition Reference : Type := str * nat.

(** The matches of a pattern over a text, as the successive calls of
    [exec] give them. *)
Fixpoint scan (fuel : nat) (regex : RegExp) (html : str) : list Reference :=
  match fuel with
  | O => []
  | S fuel' =>
      match exec regex html with
      | (None, _) => []
      | (Some m, regex') =>
          (nth 1 (m_groups m) [], lastIndex regex') :: scan fuel' regex' html
      end
  end.

Definition references (regex : RegExp) (html : str) : list Reference :=
  scan (S (List.length html)) (mkRegExp (pattern regex) 0) html.

(** The body of the loop, run over a list of references: what the
    [while] loop does once the matches are known. *)
Section Process.

Variable host : Host.
Variable base : str.
Variable locals : SriOptions.
Variable bundle : Bundle.
Variable endOffset : Z.
Variable htmlPath : str.

Fixpoint processReferences (refs : list Reference) (changes : list Change)
  : Eff (list Change) :=
  match refs with
  | [] => ret changes
  | (url, end_) :: rest =>
      if negb (shouldProcessUrl url (filterOptions locals)) then
        processReferences rest changes
      else
        integrity <- calculateIntegrity host base (ignoreMissingAsset locals)
                                        bundle htmlPath url ;;
        match integrity with
        | None => processReferences rest changes
        | Some integrity =>
            processReferences rest
              (changes ++ [mkChange integrity
                             (getCrossoriginAttribute url (crossoriginOptions locals))
                             (Z.of_nat end_ - endOffset)])
        end
  end.

End Process.

(** [l1] is [l2] with some of its elements left out, the order kept. *)
Inductive subsequence {A : Type} : list A -> list A -> Prop :=
| sub_nil : subsequence [] []
| sub_keep (x : A) (l1 l2 : list A) :
    subsequence l1 l2 -> subsequence (x :: l1) (x :: l2)
| sub_skip (x : A) (l1 l2 : list A) :
    subsequence l1 l2 -> subsequence l1 (x :: l2).

(** The insertion point of a reference in a pass of the given
    [endOffset]. *)
Definition insertPosOf (endOffset : Z) (r : Reference) : Z :=
  Z.of_nat (snd r) - endOffset.

(** ** A small build, for examples *)

Module Example.

(** A literal in which a backquote stands for a double quote. *)
Definition html (s : string) : str :=
  map (fun c => if N.eqb c 96 then dquote else c) (lit s).

Definition cdnStylesheet : str := lit "https://cdn.example.com/a.css".

Definition host : Host :=
  mkHost (lit "/work")
         (fun url => if str_eqb url cdnStylesheet then Some (utf8 (lit "body{}"))
                     else None)
         (fun _ => []).

Definition page : str :=
  html "<head><link rel=`stylesheet` href=`https://cdn.example.com/a.css`><script type=`module` src=`/assets/app.js`></script><script src=`/assets/b.js`></script></head>".

Definition appChunk : BundleItem := Chunk (lit "assets/app.js") (lit "console.log(1)").
Definition bChunk : BundleItem := Chunk (lit "assets/b.js") (lit "abc").

Definition bundle : Bundle :=
  [(lit "index.html", Asset (lit "index.html") (SourceText page));
   (lit "assets/app.js", appChunk);
   (lit "assets/b.js", bChunk)].

(** The same build without [assets/b.js]. *)
Definition incomplete : Bundle := firstn 2 bundle.

Definition scriptRegExp : RegExp := mkRegExp EXTERNAL_SCRIPT_RE 0.

(** A page with one script from a host that answers. *)
Definition unwanted : str := lit "https://cdn.unwanted.com/x.js".
Definition unwantedPage : str :=
  html "<script src=`https://cdn.unwanted.com/x.js`></script>".
Definition unwantedHost : Host :=
  mkHost (lit "/work") (fun _ => Some (utf8 (lit "abc"))) (fun _ => []).

(** Two changes for the text [<a><b>]: one before each closing
    bracket. *)
Definition twoTags : str := lit "<a><b>".
Definition first : Change := mkChange (lit "x") [] 2.
Definition second : Change := mkChange (lit "yz") (lit " c") 5.

(** A configuration whose analysis plugin has an object without a
    handler for its hook. *)
Definition analysis : Plugin :=
  mkPlugin VITE_INTERNAL_ANALYSIS_PLUGIN (HookObject None).
Definition config : ResolvedConfig :=
  mkConfig (lit "/") [mkPlugin (lit "vite:html") HookUndefined; analysis].

End Example.


(** A segment of a normalized path: not empty, not [.], not [..]. *)
Definition properSegment (seg : str) : Prop :=
  seg <> [] /\ seg <> lit "." /\ seg <> lit "..".

Module Options.

(** Only [ignoreMissingAssets]. *)
Definition ignoring (flag : bool) : SriOptions :=
  mkSriOptions (Some flag) None None None None None.

(** Nothing but an exclude list. *)
Definition excluding (patterns : list Pattern) : SriOptions :=
  mkSriOptions None None None None (Some patterns) None.

(** Nothing but an include list. *)
Definition includeOnly (patterns : list Pattern) : SriOptions :=
  mkSriOptions None None None None None (Some patterns).

(** An exclude list and an include list. *)
Definition excludeInclude (excluded included : list Pattern) : SriOptions :=
  mkSriOptions None None None None (Some excluded) (Some included).

(** A static option and, possibly, a custom function. *)
Definition crossoriginPolicy (static : option jsval)
           (custom : option (str -> jsval)) : SriOptions :=
  mkSriOptions None static custom None None None.

End Options.

(** What it is for a pattern to match a url: a string is a substring of
    it, a regular expression accepts it. *)
Definition patternMatches (url : str) (pattern : Pattern) : Prop :=
  match pattern with
  | PString s => exists before after, url = before ++ s ++ after
  | PRegExp test => test url = true
  end.

(** A reference is met by the visit of a document when it is a match of
    the script pass over the text of the document, or a match of the
    stylesheet pass over the text the script pass returned, or a match of
    the modulepreload pass over the text the stylesheet pass returned. *)
Definition metByVisit (host : Host) (base : str) (locals : SriOptions)
           (scanners : Scanners) (bundle : Bundle) (name html : str)
           (ref : Reference) : Prop :=
  let pass := transformHTML host base locals bundle in
  In ref (references (scriptRe scanners) html) \/
  (exists html1 t1,
      pass (scriptRe scanners) 10 name html = (Returned html1, t1) /\
      (In ref (references (cssRe scanners) html1) \/
       exists html2 t2,
         pass (cssRe scanners) 1 name html1 = (Returned html2, t2) /\
         In ref (references (moduleRe scanners) html2))).

(** The patterns of the scanners have no empty match. *)
Definition properScanners (scanners : Scanners) : Prop :=
  (1 <= minLength (pattern (scriptRe scanners)))%nat /\
  (1 <= minLength (pattern (cssRe scanners)))%nat /\
  (1 <= minLength (pattern (moduleRe scanners)))%nat.

(** ** Notions for the further properties *)

(** The text cut at the positions of the changes, from [from] on, with
    the text of each change put in at its cut: what one walk over the
    original text would build. *)
Fixpoint interleave (html : str) (from : Z) (changes : list Change) : str :=
  match changes with
  | [] => slice html from None
  | c :: rest =>
      slice html from (Some (insertPos c)) ++ insertText c
      ++ interleave html (insertPos c) rest
  end.

(** What the resolver does for a url: one fetch or one lookup. *)
Definition eventOf (host : Host) (base htmlPath url : str) : event :=
  if startsWith url (lit "http") then Fetched url
  else LookedUp (getBundleKey host base htmlPath url).

(** The urls of the references that pass the filter, in match order. *)
Definition acceptedUrls (locals : SriOptions) (refs : list Reference) : list str :=
  filter (fun url => shouldProcessUrl url (filterOptions locals)) (map fst refs).

(** The test of line 154. *)
Definition isHtmlDocument (item : BundleItem) : bool :=
  match item with
  | Asset fileName _ =>
      endsWith fileName (lit ".html") || endsWith fileName (lit ".htm")
  | Chunk _ _ => false
  end.

(** The call of a [generateBundle] hook by the build: a function is
    called, an object is called through its handler, and nothing happens
    where there is none. *)
Definition runHook (hook : Hook) (bundle : Bundle) : Run :=
  match hook with
  | HookFunction fn => fn bundle
  | HookObject (Some fn) => fn bundle
  | HookObject None | HookUndefined => mkRun (Returned tt) [] bundle
  end.

Definition isAnalysisPlugin (p : Plugin) : bool :=
  str_eqb (name p) VITE_INTERNAL_ANALYSIS_PLUGIN.

Definition space : char16 := 32%N.
Definition caret : char16 := 94%N.

(** A url as the script pattern captures it: not empty, and without a
    space or a quote of either kind. *)
Definition scriptUrl (url : str) : Prop :=
  url <> [] /\
  Forall (fun c => c <> space /\ c <> squote /\ c <> dquote) url.

(** A url as the link patterns capture it: without a caret either. *)
Definition linkUrl (url : str) : Prop :=
  url <> [] /\
  Forall (fun c => c <> caret /\ c <> space /\ c <> squote /\ c <> dquote) url.

Module Sample.

(** Three changes for the text [<a><b><c>]. *)
Definition tags : str := lit "<a><b><c>".
Definition changes : list Change :=
  [mkChange (lit "x") [] 2; mkChange (lit "yz") (lit " c") 5;
   mkChange [] [] 8].

(** A page whose two scripts are the same file. *)
Definition twice : str :=
  Example.html "<script src=`/assets/b.js`></script><script src=`/assets/b.js`></script>".

(** A build with two pages, the second of which names a missing file. *)
Definition goodPage : str := Example.html "<script src=`/assets/b.js`></script>".
Definition badPage : str := Example.html "<script src=`/assets/gone.js`></script>".
Definition twoPages : Bundle :=
  [(lit "a.html", Asset (lit "a.html") (SourceText goodPage));
   (lit "assets/b.js", Example.bChunk);
   (lit "b.html", Asset (lit "b.html") (SourceText badPage))].

(** A build without a page. *)
Definition noPage : Bundle :=
  [(lit "assets/app.js", Example.appChunk);
   (lit "logo.svg", Asset (lit "logo.svg") (SourceBytes []))].

(** A page whose script is a local file with a name in [http]. *)
Definition oddUrl : str := lit "httpdocs/app.js".
Definition oddPage : str := Example.html "<script src=`httpdocs/app.js`></script>".
Definition oddBundle : Bundle :=
  [(lit "index.html", Asset (lit "index.html") (SourceText oddPage))].

(** An exclude list of one regular expression with the [g] flag, the
    same expression without the flag, and a page that names one url of an
    unwanted host twice. *)
Definition unwantedGlobal : PatternRegExp :=
  mkPatternRegExp true false (mkRegExp (chars "unwanted") 0).
Definition unwantedPlain : PatternRegExp :=
  mkPatternRegExp false false (mkRegExp (chars "unwanted") 0).
Definition excludeThenInclude (r : PatternRegExp) : PatternObjects :=
  mkPatternObjects (Some [ORegExp r]) (Some [OString (lit "lib.js")]).
Definition unwantedUrl : str := lit "https://cdn.unwanted.com/lib.js".
Definition unwantedTwice : str :=
  Example.html "<script src=`https://cdn.unwanted.com/lib.js`></script><script src=`https://cdn.unwanted.com/lib.js`></script>".

Definition noExternal : SriOptions :=
  mkSriOptions None None None (Some true) None None.

(** A host hook that adds nothing and one that fails. *)
Definition quiet : GenerateBundle := fun bundle => mkRun (Returned tt) [] bundle.
Definition failing : GenerateBundle :=
  fun bundle => mkRun (Thrown (FetchFailed [])) [] bundle.

Definition pluginWith (hook : Hook) : Plugin :=
  mkPlugin VITE_INTERNAL_ANALYSIS_PLUGIN hook.

End Sample.

(** What a run may do to the entry of a key: leave it as it is, or give
    a document a new text under the same file name; it neither adds nor
    removes an entry. *)
Definition keptEntry (before after : option BundleItem) : Prop :=
  match before, after with
  | None, None => True
  | Some item, Some item' =>
      item' = item \/
      (isHtmlDocument item = true /\
       exists fileName source text,
         item = Asset fileName source /\
         item' = Asset fileName (SourceText text))
  | _, _ => False
  end.

(** What a run may do to the text of an entry: leave the entry as it is,
    or give an asset a source whose text holds the old text, in order. *)
Definition grownEntry (host : Host) (before after : option BundleItem) : Prop :=
  match before, after with
  | None, None => True
  | Some item, Some item' =>
      item' = item \/
      exists fileName source source',
        item = Asset fileName source /\
        item' = Asset fileName source' /\
        subsequence (sourceToString host source) (sourceToString host source')
  | _, _ => False
  end.

(** * Properties *)

(** ** Slices *)

Lemma len_nonneg (s : str) : 0 <= len s.
Proof. unfold len; lia. Qed.

Lemma len_app (a b : str) : len (a ++ b) = len a + len b.
Proof. unfold len; rewrite length_app; lia. Qed.

Lemma clampIndex_inside (n i : Z) : 0 <= i <= n -> clampIndex n i = i.
Proof.
  intros H; unfold clampIndex.
  destruct (Z.ltb_spec i 0); lia.
Qed.

Lemma slice_prefix (s : str) (k : Z) :
  0 <= k <= len s -> slice s 0 (Some k) = firstn (Z.to_nat k) s.
Proof.
  intros H; unfold slice.
  rewrite !clampIndex_inside by lia.
  now rewrite Z.sub_0_r.
Qed.

Lemma slice_suffix (s : str) (k : Z) :
  0 <= k <= len s -> slice s k None = skipn (Z.to_nat k) s.
Proof.
  intros H; unfold slice.
  rewrite clampIndex_inside by lia.
  apply firstn_all2.
  rewrite length_skipn; unfold len in *; lia.
Qed.

Lemma slice_window (s : str) (a b : Z) :
  0 <= a <= b -> b <= len s ->
  slice s a (Some b) = firstn (Z.to_nat (b - a)) (skipn (Z.to_nat a) s).
Proof.
  intros Ha Hb; unfold slice.
  now rewrite !clampIndex_inside by lia.
Qed.

(** A text that sits right after a prefix of known length is what the
    slice at that length reads. *)
Lemma slice_middle (pre t post : str) :
  slice (pre ++ t ++ post) (len pre) (Some (len pre + len t)) = t.
Proof.
  rewrite slice_window.
  - replace (len pre + len t - len pre) with (len t) by lia.
    unfold len; rewrite !Nat2Z.id.
    rewrite skipn_app, Nat.sub_diag, skipn_all; simpl.
    rewrite firstn_app, Nat.sub_diag, firstn_all; simpl.
    apply app_nil_r.
  - pose proof (len_nonneg pre); pose proof (len_nonneg t); lia.
  - rewrite !len_app; pose proof (len_nonneg post); lia.
Qed.

Lemma slice_middle' (pre t post : str) (k : Z) :
  len pre = k -> slice (pre ++ t ++ post) k (Some (k + len t)) = t.
Proof. intros <-; apply slice_middle. Qed.

Lemma slice_of_firstn (s : str) (q a b : Z) :
  0 <= a <= b -> b <= q -> q <= len s ->
  slice (firstn (Z.to_nat q) s) a (Some b) = slice s a (Some b).
Proof.
  intros Ha Hb Hq.
  assert (Hl : len (firstn (Z.to_nat q) s) = q).
  { unfold len in *; rewrite length_firstn; lia. }
  rewrite !slice_window by lia.
  rewrite skipn_firstn_comm, firstn_firstn.
  f_equal; lia.
Qed.

(** ** The patcher *)

(** One splice, when the position is inside the text. *)
Lemma splice_inside (html t : str) (k : Z) :
  0 <= k <= len html ->
  slice html 0 (Some k) ++ t ++ slice html k None
  = firstn (Z.to_nat k) html ++ t ++ skipn (Z.to_nat k) html.
Proof.
  intros H; now rewrite slice_prefix, slice_suffix.
Qed.

Lemma len_firstn_skipn (html : str) (k : nat) :
  len (firstn k html) + len (skipn k html) = len html.
Proof.
  rewrite <- len_app; now rewrite firstn_skipn.
Qed.

Section Patcher.

(** The length of the text the pass started from. *)
Variable n0 : Z.

(** Insertions at or after [q] leave the first [q] code units alone. *)
Lemma applyChanges_prefix (cs : list Change) :
  forall (html : str) (offset q : Z),
    len html = n0 + offset -> 0 <= offset -> 0 <= q ->
    inRange n0 cs ->
    Forall (fun c => q <= insertPos c + offset) cs ->
    firstn (Z.to_nat q) (applyChanges html offset cs) = firstn (Z.to_nat q) html.
Proof.
  induction cs as [|c cs IH]; intros html offset q Hlen Hoff Hq Hr Hge;
    cbn [applyChanges]; cbv zeta.
  - reflexivity.
  - inversion Hr as [|? ? Hc Hr']; subst.
    inversion Hge as [|? ? Hqc Hge']; subst.
    rewrite splice_inside by lia.
    pose proof (len_nonneg (insertText c)) as Ht.
    rewrite IH; try lia; auto.
    + rewrite firstn_app.
      rewrite firstn_firstn.
      replace (Nat.min (Z.to_nat q) (Z.to_nat (insertPos c + offset)))
        with (Z.to_nat q) by lia.
      rewrite length_firstn.
      replace (Z.to_nat q - _)%nat with 0%nat.
      * simpl; apply app_nil_r.
      * unfold len in Hlen; lia.
    + rewrite !len_app.
      pose proof (len_firstn_skipn html (Z.to_nat (insertPos c + offset))); lia.
    + eapply Forall_impl; [|exact Hge']; simpl; intros; lia.
Qed.

(** The position law, from any state of the loop. *)
Lemma applyChanges_lands (cs : list Change) :
  forall (html : str) (offset : Z),
    len html = n0 + offset -> 0 <= offset ->
    inRange n0 cs ->
    StronglySorted Z.le (map insertPos cs) ->
    forall (i : nat) (c : Change),
      nth_error cs i = Some c ->
      let start := insertPos c + (offset + insertedLength (firstn i cs)) in
      slice (applyChanges html offset cs) start
            (Some (start + len (insertText c)))
      = insertText c.
Proof.
  induction cs as [|c0 cs IH]; intros html offset Hlen Hoff Hr Hs i c Hi.
  - destruct i; discriminate.
  - inversion Hr as [|? ? Hc Hr']; subst.
    simpl in Hs; inversion Hs as [|? ? Hs' Hle]; subst.
    pose proof (len_nonneg (insertText c0)) as Ht.
    assert (Hlen' : len (firstn (Z.to_nat (insertPos c0 + offset)) html ++
                   insertText c0 ++ skipn (Z.to_nat (insertPos c0 + offset)) html)
                   = n0 + (offset + len (insertText c0))).
    { rewrite !len_app.
      pose proof (len_firstn_skipn html (Z.to_nat (insertPos c0 + offset))); lia. }
    destruct i as [|i]; simpl in Hi.
    + injection Hi as <-.
      cbn [applyChanges firstn insertedLength fold_right]; cbv zeta.
      rewrite Z.add_0_r.
      rewrite splice_inside by lia.
      set (k := insertPos c0 + offset) in *.
      set (L := len (insertText c0)) in *.
      set (html' := firstn (Z.to_nat k) html ++ insertText c0 ++ skipn (Z.to_nat k) html) in *.
      assert (Hk : len (firstn (Z.to_nat k) html) = k).
      { unfold len in *; rewrite length_firstn; lia. }
      assert (Hq : firstn (Z.to_nat (k + L)) (applyChanges html' (offset + L) cs)
                   = firstn (Z.to_nat (k + L)) html').
      { apply applyChanges_prefix; try lia; auto.
        rewrite Forall_forall in Hle |- *.
        intros c' Hc'. specialize (Hle (insertPos c') (in_map _ _ _ Hc')).
        lia. }
      assert (Hfin : k + L <= len (applyChanges html' (offset + L) cs)).
      { apply (f_equal (@List.length char16)) in Hq.
        rewrite !length_firstn in Hq.
        unfold len in *. lia. }
      rewrite <- (slice_of_firstn _ (k + L)) by lia.
      rewrite Hq.
      rewrite slice_of_firstn by lia.
      subst html'. apply slice_middle'. exact Hk.
    + cbn [applyChanges firstn insertedLength fold_right]; cbv zeta.
      rewrite splice_inside by lia.
      fold (insertedLength (firstn i cs)).
      specialize (IH _ _ Hlen' ltac:(lia) Hr' Hs' i c Hi).
      cbv zeta in IH.
      replace (insertPos c + (offset + (len (insertText c0) + insertedLength (firstn i cs))))
        with (insertPos c + (offset + len (insertText c0) + insertedLength (firstn i cs))) by lia.
      exact IH.
Qed.

End Patcher.

Lemma sorted_lt_le (l : list Z) :
  StronglySorted Z.lt l -> StronglySorted Z.le l.
Proof.
  induction 1; constructor; auto.
  eapply Forall_impl; [|eassumption]. simpl; intros; lia.
Qed.

(** C1. Insertion-position law: for changes with ascending positions
    [P_1 < ... < P_N] inside the text, the patcher run from offset 0 puts
    the i-th inserted text at position [P_i + (L_1 + ... + L_{i-1})] of its
    output. *)
Theorem insertion_position_law (html : str) (changes : list Change) :
  StronglySorted Z.lt (map insertPos changes) ->
  Forall (fun c => 0 <= insertPos c <= len html) changes ->
  forall (i : nat) (c : Change),
    nth_error changes i = Some c ->
    let start := insertPos c + insertedLength (firstn i changes) in
    slice (applyChanges html 0 changes) start (Some (start + len (insertText c)))
    = insertText c.
Proof.
  intros Hs Hr i c Hi.
  exact (applyChanges_lands (len html) changes html 0
           ltac:(lia) ltac:(lia) Hr (sorted_lt_le _ Hs) i c Hi).
Qed.

Lemma insertion_position_law_witness :
  let changes := [Example.first; Example.second] in
  StronglySorted Z.lt (map insertPos changes) /\
  Forall (fun c => 0 <= insertPos c <= len Example.twoTags) changes /\
  nth_error changes 1 = Some Example.second /\
  applyChanges Example.twoTags 0 changes
  = Example.html "<a integrity=`x`><b integrity=`yz` c>" /\
  slice (applyChanges Example.twoTags 0 changes) (5 + 14) (Some (5 + 14 + 17))
  = Example.html " integrity=`yz` c".
Proof.
  cbv zeta.
  assert (H1 : StronglySorted Z.lt (map insertPos [Example.first; Example.second])).
  { repeat constructor. }
  assert (H2 : Forall (fun c => 0 <= insertPos c <= len Example.twoTags)
                      [Example.first; Example.second]).
  { repeat constructor; vm_compute; discriminate. }
  split; [exact H1|]. split; [exact H2|]. split; [reflexivity|].
  split; [reflexivity|].
  exact (insertion_position_law Example.twoTags [Example.first; Example.second]
           H1 H2 1%nat Example.second eq_refl).
Defined.

(** ** The matcher *)

Lemma greedy_sound {R : Type} (p : char16 -> bool) (k : str -> option R) :
  forall (s g : str) (r : R),
    greedy p k s = Some (g, r) ->
    exists rest, s = g ++ rest /\ k rest = Some r.
Proof.
  induction s as [|c s IH]; intros g r H; simpl in H.
  - destruct (k []) eqn:Hk; simpl in H; [|discriminate].
    injection H as <- <-. now exists [].
  - destruct (p c).
    + destruct (greedy p k s) as [[g' r']|] eqn:Hg.
      * injection H as <- <-.
        destruct (IH _ _ eq_refl) as (rest & -> & Hk).
        now exists rest.
      * destruct (k (c :: s)) eqn:Hk; simpl in H; [|discriminate].
        injection H as <- <-. now exists (c :: s).
    + destruct (k (c :: s)) eqn:Hk; simpl in H; [|discriminate].
      injection H as <- <-. now exists (c :: s).
Qed.

Lemma matchAtom_sound {R : Type} (a : atom) (k : str -> option R) :
  forall (s g : str) (r : R),
    matchAtom a k s = Some (g, r) ->
    exists rest, s = g ++ rest /\ k rest = Some r /\ (atomMin a <= List.length g)%nat.
Proof.
  intros s g r H. unfold matchAtom, atomMin in *.
  destruct (a_quant a).
  - destruct s as [|c s]; [discriminate|].
    destruct (inClass (a_class a) c); [|discriminate].
    destruct (k s) eqn:Hk; simpl in H; [|discriminate].
    injection H as <- <-. exists s. simpl. repeat split; auto.
  - apply greedy_sound in H. destruct H as (rest & -> & Hk).
    exists rest. repeat split; auto. lia.
  - destruct s as [|c s]; [discriminate|].
    destruct (inClass (a_class a) c); [|discriminate].
    destruct (greedy (inClass (a_class a)) k s) as [[g' r']|] eqn:Hg;
      simpl in H; [|discriminate].
    injection H as <- <-.
    apply greedy_sound in Hg. destruct Hg as (rest & -> & Hk).
    exists rest. simpl. repeat split; auto. lia.
Qed.

Lemma minLength_cons (a : atom) (r : regex) :
  minLength (a :: r) = (atomMin a + minLength r)%nat.
Proof.
  unfold minLength, atomMin; simpl.
  destruct (a_quant a); reflexivity.
Qed.

Lemma greedy_class {R : Type} (p : char16 -> bool) (k : str -> option R) :
  forall (s g : str) (r : R),
    greedy p k s = Some (g, r) -> Forall (fun c => p c = true) g.
Proof.
  induction s as [|c s IH]; intros g r H; simpl in H.
  - destruct (k []); simpl in H; [|discriminate]. injection H as <- <-. constructor.
  - destruct (p c) eqn:Hc.
    + destruct (greedy p k s) as [[g' r']|] eqn:Hg.
      * injection H as <- <-. constructor; [exact Hc | eapply IH; eauto].
      * destruct (k (c :: s)); simpl in H; [|discriminate].
        injection H as <- <-. constructor.
    + destruct (k (c :: s)); simpl in H; [|discriminate].
      injection H as <- <-. constructor.
Qed.

Lemma greedy_complete {R : Type} (p : char16 -> bool) (k : str -> option R) :
  forall (g rest : str) (r : R),
    Forall (fun c => p c = true) g -> k rest = Some r ->
    exists g' r', greedy p k (g ++ rest) = Some (g', r').
Proof.
  induction g as [|c g IH]; intros rest r Hg Hk.
  - simpl. destruct rest as [|c s]; simpl.
    + rewrite Hk. simpl. eauto.
    + destruct (p c); [destruct (greedy p k s) as [[g' r']|]|];
        try rewrite Hk; simpl; eauto.
  - inversion Hg as [|? ? Hc Hg']; subst. simpl. rewrite Hc.
    destruct (IH rest r Hg' Hk) as (g' & r' & ->). eauto.
Qed.

(** What the matcher accepts is a match of the pattern, and where the
    pattern has a match the matcher finds one. *)
Lemma matchHere_sound (r : regex) :
  forall (s : str) (n : nat) (gs : list str),
    matchHere r s = Some (n, gs) -> matchesText r (firstn n s).
Proof.
  induction r as [|a r IH]; intros s n gs H.
  - simpl in H. injection H as <- <-. reflexivity.
  - cbn [matchHere] in H.
    destruct (matchAtom a (matchHere r) s) as [[g [n' gs']]|] eqn:Ha;
      simpl in H; [|discriminate].
    injection H as <- <-.
    assert (Hcls : Forall (fun c => inClass (a_class a) c = true) g /\
                   match a_quant a with
                   | One => List.length g = 1%nat
                   | Star => True
                   | Plus => (1 <= List.length g)%nat
                   end).
    { unfold matchAtom in Ha. destruct (a_quant a).
      - destruct s as [|c s]; [discriminate|].
        destruct (inClass (a_class a) c) eqn:Hc; [|discriminate].
        destruct (matchHere r s); simpl in Ha; [|discriminate].
        injection Ha as <- _. split; [repeat constructor; exact Hc | reflexivity].
      - split; [eapply greedy_class; eauto | exact I].
      - destruct s as [|c s]; [discriminate|].
        destruct (inClass (a_class a) c) eqn:Hc; [|discriminate].
        destruct (greedy _ _ s) as [[g0 r0]|] eqn:Hg; simpl in Ha; [|discriminate].
        injection Ha as <- _.
        split; [constructor; [exact Hc | eapply greedy_class; eauto] | simpl; lia]. }
    apply matchAtom_sound in Ha. destruct Ha as (rest & -> & Hk & _).
    exists g, (firstn n' rest). split; [|split].
    + rewrite firstn_app. rewrite firstn_all2 by lia.
      f_equal. f_equal. lia.
    + exact Hcls.
    + eapply IH; eauto.
Qed.

Lemma matchHere_complete (r : regex) :
  forall (text tail : str),
    matchesText r text -> exists m, matchHere r (text ++ tail) = Some m.
Proof.
  induction r as [|a r IH]; intros text tail H.
  - simpl. eauto.
  - destruct H as (piece & rest & -> & [Hcls Hq] & Hrest).
    destruct (IH rest tail Hrest) as (m & Hm).
    rewrite <- app_assoc. cbn [matchHere].
    assert (Ha : exists g res, matchAtom a (matchHere r) (piece ++ rest ++ tail)
                               = Some (g, res)).
    { unfold matchAtom. destruct (a_quant a).
      - destruct piece as [|c [|c' piece]]; try discriminate.
        inversion Hcls; subst. simpl. rewrite H1, Hm. simpl. eauto.
      - eapply greedy_complete; eauto.
      - destruct piece as [|c piece]; [simpl in Hq; lia|].
        inversion Hcls as [|? ? Hc Hcls']; subst. simpl. rewrite Hc.
        destruct (greedy_complete _ (matchHere r) piece (rest ++ tail) m Hcls' Hm)
          as (g' & r' & ->). simpl. eauto. }
    destruct Ha as (g & [n gs] & ->). simpl. eauto.
Qed.

(** A match consumes a prefix of the text, at least as long as the
    pattern's mandatory atoms are many. *)
Lemma matchHere_bounds (r : regex) :
  forall (s : str) (n : nat) (gs : list str),
    matchHere r s = Some (n, gs) ->
    (minLength r <= n <= List.length s)%nat.
Proof.
  induction r as [|a r IH]; intros s n gs H.
  - simpl in H. injection H as <- <-. unfold minLength; simpl; lia.
  - cbn [matchHere] in H.
    destruct (matchAtom a (matchHere r) s) as [[g [n' gs']]|] eqn:Ha;
      simpl in H; [|discriminate].
    injection H as <- <-.
    apply matchAtom_sound in Ha. destruct Ha as (rest & -> & Hk & Hg).
    apply IH in Hk. rewrite minLength_cons, length_app. lia.
Qed.

Lemma search_bounds (r : regex) :
  forall (s : str) (i j n : nat) (gs : list str),
    search r s i = Some (j, (n, gs)) ->
    (i <= j /\ j + n <= i + List.length s /\ minLength r <= n)%nat.
Proof.
  induction s as [|c s IH]; intros i j n gs H; simpl in H.
  - destruct (matchHere r []) as [[n' gs']|] eqn:Hm; [|discriminate].
    injection H as <- <- <-. apply matchHere_bounds in Hm. simpl in *; lia.
  - destruct (matchHere r (c :: s)) as [[n' gs']|] eqn:Hm.
    + injection H as <- <- <-. apply matchHere_bounds in Hm. simpl in *; lia.
    + apply IH in H. simpl; lia.
Qed.

(** What a successful [exec] guarantees. *)
Lemma exec_some (re re' : RegExp) (html : str) (m : RegExpExecArray) :
  exec re html = (Some m, re') ->
  pattern re' = pattern re /\
  (lastIndex re <= m_index m)%nat /\
  (m_index m + minLength (pattern re) <= lastIndex re')%nat /\
  (lastIndex re' <= List.length html)%nat.
Proof.
  unfold exec. intros H.
  destruct (Nat.ltb_spec (List.length html) (lastIndex re)); [discriminate|].
  destruct (search (pattern re) (skipn (lastIndex re) html) (lastIndex re))
    as [[i [n gs]]|] eqn:Hs; [|discriminate].
  injection H as <- <-. simpl.
  apply search_bounds in Hs. rewrite length_skipn in Hs.
  split; [reflexivity | lia].
Qed.

Lemma exec_none (re re' : RegExp) (html : str) :
  exec re html = (None, re') -> re' = mkRegExp (pattern re) 0.
Proof.
  unfold exec. intros H.
  destruct (List.length html <? lastIndex re)%nat.
  - now injection H as <-.
  - destruct (search _ _ _) as [[i [n gs]]|]; [discriminate|].
    now injection H as <-.
Qed.

(** ** The scan *)

(** The ends of the successive matches go up strictly and stay inside
    the text. *)
Lemma scan_sorted (html : str) :
  forall (fuel : nat) (re : RegExp),
    (1 <= minLength (pattern re))%nat ->
    StronglySorted lt (map snd (scan fuel re html)) /\
    Forall (fun e => lastIndex re + minLength (pattern re) <= e <= List.length html)%nat
           (map snd (scan fuel re html)).
Proof.
  induction fuel as [|fuel IH]; intros re Hmin; simpl.
  - split; constructor.
  - destruct (exec re html) as [[m|] re'] eqn:He; simpl.
    + apply exec_some in He. destruct He as (Hp & Hi & Hn & Hl).
      destruct (IH re') as [Hs Hf]; [rewrite Hp; exact Hmin|].
      rewrite Hp in Hf.
      split; constructor; auto; try lia.
      * eapply Forall_impl; [|exact Hf]. simpl; intros; lia.
      * eapply Forall_impl; [|exact Hf]. simpl; intros; lia.
    + split; constructor.
Qed.

(** ** The loop *)

Lemma bind_ext {A B : Type} (m : Eff A) (f g : A -> Eff B) :
  (forall a, f a = g a) -> bind m f = bind m g.
Proof.
  intros H. destruct m as [[a| |] t]; simpl; auto. now rewrite H.
Qed.

Section Loop.

Variable host : Host.
Variable base : str.
Variable locals : SriOptions.
Variable bundle : Bundle.
Variable endOffset : Z.
Variable htmlPath : str.
Variable html : str.

(** With fuel for every position left in the text, the loop is the
    processing of the matches in the order [exec] gives them. *)
Lemma whileExec_scan :
  forall (fuel : nat) (re : RegExp) (changes : list Change),
    (1 <= minLength (pattern re))%nat ->
    (List.length html - lastIndex re < fuel)%nat ->
    whileExec host base locals bundle fuel re endOffset htmlPath html changes
    = processReferences host base locals bundle endOffset htmlPath
                        (scan fuel re html) changes.
Proof.
  induction fuel as [|fuel IH]; intros re changes Hmin Hfuel; [lia|].
  cbn [whileExec scan].
  destruct (exec re html) as [[m|] re'] eqn:He.
  - cbn [processReferences].
    apply exec_some in He. destruct He as (Hp & Hi & Hn & Hl).
    assert (Hmin' : (1 <= minLength (pattern re'))%nat) by (now rewrite Hp).
    assert (Hfuel' : (List.length html - lastIndex re' < fuel)%nat) by lia.
    destruct (negb (shouldProcessUrl _ _)).
    + now apply IH.
    + apply bind_ext. intros [i|]; now apply IH.
  - reflexivity.
Qed.

Lemma collectChanges_references (re : RegExp) :
  (1 <= minLength (pattern re))%nat ->
  collectChanges host base locals bundle re endOffset htmlPath html
  = processReferences host base locals bundle endOffset htmlPath
                      (references re html) [].
Proof.
  intros Hmin. unfold collectChanges, references.
  apply whileExec_scan; simpl; [exact Hmin | lia].
Qed.

Lemma calculateIntegrity_finishes (ignore : bool) (url : str) :
  fst (calculateIntegrity host base ignore bundle htmlPath url) <> Unfinished.
Proof.
  unfold calculateIntegrity.
  destruct (startsWith url (lit "http")); simpl.
  - destruct (fetch host url); simpl; discriminate.
  - destruct (lookup _ bundle); simpl; [discriminate|].
    destruct ignore; simpl; discriminate.
Qed.

Lemma bind_finishes {A B : Type} (m : Eff A) (f : A -> Eff B) :
  fst m <> Unfinished -> (forall a, fst (f a) <> Unfinished) ->
  fst (bind m f) <> Unfinished.
Proof.
  intros Hm Hf. destruct m as [[a| |] t]; simpl in *; try discriminate; try congruence.
  specialize (Hf a). destruct (f a); simpl in *; exact Hf.
Qed.

Lemma processReferences_finishes (refs : list Reference) :
  forall changes,
    fst (processReferences host base locals bundle endOffset htmlPath refs changes)
    <> Unfinished.
Proof.
  induction refs as [|[url e] refs IH]; intros changes; cbn [processReferences].
  - simpl; discriminate.
  - destruct (negb _); [apply IH|].
    apply bind_finishes; [apply calculateIntegrity_finishes|].
    intros [i|]; apply IH.
Qed.

(** The changes a run adds: one for some of the references, in their
    order, each at the insertion point of its reference. *)
Lemma processReferences_order (refs : list Reference) :
  forall (changes out : list Change) (t : list event),
    processReferences host base locals bundle endOffset htmlPath refs changes
    = (Returned out, t) ->
    exists added,
      out = changes ++ added /\
      subsequence (map insertPos added) (map (insertPosOf endOffset) refs).
Proof.
  induction refs as [|[url e] refs IH]; intros changes out t H;
    cbn [processReferences] in H.
  - injection H as <- <-. exists []. rewrite app_nil_r. split; [reflexivity|constructor].
  - destruct (negb _).
    + destruct (IH _ _ _ H) as (added & -> & Hsub).
      exists added. split; [reflexivity|]. simpl. now constructor.
    + destruct (calculateIntegrity _ _ _ _ _ _) as [[[i|]| |] t0]; simpl in H;
        try discriminate.
      * destruct (processReferences _ _ _ _ _ _ _ _) as [r t'] eqn:Hp.
        injection H as -> <-.
        destruct (IH _ _ _ Hp) as (added & -> & Hsub).
        eexists (_ :: added). rewrite <- app_assoc. split; [reflexivity|].
        simpl. now constructor.
      * destruct (processReferences _ _ _ _ _ _ _ _) as [r t'] eqn:Hp.
        injection H as -> <-.
        destruct (IH _ _ _ Hp) as (added & -> & Hsub).
        exists added. split; [reflexivity|]. simpl. now constructor.
Qed.

End Loop.

Lemma subsequence_Forall {A : Type} (P : A -> Prop) (l1 l2 : list A) :
  subsequence l1 l2 -> Forall P l2 -> Forall P l1.
Proof.
  induction 1; intros HF; auto.
  - inversion HF; subst. constructor; auto.
  - inversion HF; subst. auto.
Qed.

Lemma subsequence_sorted (l1 l2 : list Z) :
  subsequence l1 l2 -> StronglySorted Z.lt l2 -> StronglySorted Z.lt l1.
Proof.
  induction 1; intros HS; auto.
  - inversion HS; subst. constructor; auto.
    eapply subsequence_Forall; eauto.
  - inversion HS; subst. auto.
Qed.

(** ** The passes *)

Lemma minLength_script : minLength EXTERNAL_SCRIPT_RE = 22%nat.
Proof. reflexivity. Qed.

Lemma minLength_css : minLength EXTERNAL_CSS_RE = 29%nat.
Proof. reflexivity. Qed.

Lemma minLength_module : minLength EXTERNAL_MODULE_RE = 32%nat.
Proof. reflexivity. Qed.

(** The insertion points of the references of a pass go up strictly and
    lie inside the text, when no match is shorter than [endOffset]. *)
Lemma references_positions (re : RegExp) (endOffset : Z) (html : str) :
  (1 <= minLength (pattern re))%nat ->
  0 <= endOffset <= Z.of_nat (minLength (pattern re)) ->
  StronglySorted Z.lt (map (insertPosOf endOffset) (references re html)) /\
  Forall (fun p => 0 <= p <= len html) (map (insertPosOf endOffset) (references re html)).
Proof.
  intros Hmin Hoff. unfold references.
  destruct (scan_sorted html (S (List.length html)) (mkRegExp (pattern re) 0) Hmin)
    as [Hs Hf].
  set (refs := scan _ _ _) in *. clearbody refs.
  cbn [lastIndex pattern] in Hf.
  unfold insertPosOf, len.
  induction refs as [|[url e] refs IH]; simpl in *.
  - split; constructor.
  - apply StronglySorted_inv in Hs. destruct Hs as [Hs' Hlt].
    apply Forall_cons_iff in Hf. destruct Hf as [He Hf'].
    destruct (IH Hs' Hf') as [IH1 IH2].
    split; constructor; auto; try lia.
    rewrite Forall_map. rewrite Forall_map in Hlt.
    eapply Forall_impl; [|exact Hlt]. simpl; intros; lia.
Qed.

(** C9. Pass-phase ordering: a pass first computes all its changes on
    the text it was given and only then patches that text; the changes
    are in the order of the matches, at strictly ascending insertion
    points inside the text; and the [lastIndex] the matcher held when
    the pass began plays no part. *)
Theorem pass_phase_ordering
        (host : Host) (base : str) (locals : SriOptions) (bundle : Bundle)
        (regex : RegExp) (endOffset : Z) (htmlPath html : str) :
  (1 <= minLength (pattern regex))%nat ->
  0 <= endOffset <= Z.of_nat (minLength (pattern regex)) ->
  let collected := collectChanges host base locals bundle regex endOffset htmlPath html in
  let result := transformHTML host base locals bundle regex endOffset htmlPath html in
  (forall stale : nat,
      transformHTML host base locals bundle (mkRegExp (pattern regex) stale)
                    endOffset htmlPath html = result) /\
  fst collected <> Unfinished /\
  (forall e t, collected = (Thrown e, t) -> result = (Thrown e, t)) /\
  (forall changes t,
      collected = (Returned changes, t) ->
      result = (Returned (applyChanges html 0 changes), t) /\
      subsequence (map insertPos changes)
                  (map (insertPosOf endOffset) (references regex html)) /\
      StronglySorted Z.lt (map insertPos changes) /\
      Forall (fun c => 0 <= insertPos c <= len html) changes).
Proof.
  intros Hmin Hoff collected result.
  split; [reflexivity|].
  split.
  { subst collected. rewrite collectChanges_references by exact Hmin.
    apply processReferences_finishes. }
  split.
  { intros e t H. subst result. unfold transformHTML.
    fold collected. now rewrite H. }
  intros changes t H.
  split.
  { subst result. unfold transformHTML. fold collected. rewrite H.
    simpl. now rewrite app_nil_r. }
  subst collected. rewrite collectChanges_references in H by exact Hmin.
  apply processReferences_order in H. destruct H as (added & -> & Hsub).
  simpl. destruct (references_positions regex endOffset html Hmin Hoff) as [Hs Hr].
  split; [exact Hsub|].
  split; [eapply subsequence_sorted; eauto|].
  apply (proj1 (Forall_map insertPos (fun p => 0 <= p <= len html) added)).
  eapply subsequence_Forall; eauto.
Qed.

(** The position law holds for the changes of every pass: the text a
    pass returns has each of its insertions where the law says. *)
Lemma pass_insertions_land
      (host : Host) (base : str) (locals : SriOptions) (bundle : Bundle)
      (regex : RegExp) (endOffset : Z) (htmlPath html : str)
      (changes : list Change) (t : list event) :
  (1 <= minLength (pattern regex))%nat ->
  0 <= endOffset <= Z.of_nat (minLength (pattern regex)) ->
  collectChanges host base locals bundle regex endOffset htmlPath html
  = (Returned changes, t) ->
  exists out,
    transformHTML host base locals bundle regex endOffset htmlPath html
    = (Returned out, t) /\
    forall (i : nat) (c : Change),
      nth_error changes i = Some c ->
      let start := insertPos c + insertedLength (firstn i changes) in
      slice out start (Some (start + len (insertText c))) = insertText c.
Proof.
  intros Hmin Hoff Hc.
  exists (applyChanges html 0 changes). split.
  - unfold transformHTML. rewrite Hc. simpl. now rewrite app_nil_r.
  - rewrite collectChanges_references in Hc by exact Hmin.
    apply processReferences_order in Hc. destruct Hc as (added & -> & Hsub).
    simpl. destruct (references_positions regex endOffset html Hmin Hoff) as [Hs Hr].
    intros i c Hi.
    apply (applyChanges_lands (len html) added html 0); try lia; auto.
    + apply (proj1 (Forall_map insertPos (fun p => 0 <= p <= len html) added)).
      eapply subsequence_Forall; eauto.
    + apply sorted_lt_le. eapply subsequence_sorted; eauto.
Qed.

Lemma pass_phase_ordering_witness :
  (1 <= minLength (pattern Example.scriptRegExp))%nat /\
  0 <= 10 <= Z.of_nat (minLength (pattern Example.scriptRegExp)) /\
  exists changes t,
    collectChanges Example.host (lit "/") (withDefaults None) Example.bundle
                   Example.scriptRegExp 10 (lit "index.html") Example.page
    = (Returned changes, t) /\
    map insertPos changes = [108; 144] /\
    transformHTML Example.host (lit "/") (withDefaults None) Example.bundle
                  (mkRegExp EXTERNAL_SCRIPT_RE 7) 10 (lit "index.html") Example.page
    = (Returned (applyChanges Example.page 0 changes), t) /\
    StronglySorted Z.lt (map insertPos changes).
Proof.
  assert (H1 : (1 <= minLength (pattern Example.scriptRegExp))%nat)
    by (vm_compute; lia).
  assert (H2 : 0 <= 10 <= Z.of_nat (minLength (pattern Example.scriptRegExp)))
    by (vm_compute; split; discriminate).
  split; [exact H1|]. split; [exact H2|].
  destruct (collectChanges Example.host (lit "/") (withDefaults None) Example.bundle
              Example.scriptRegExp 10 (lit "index.html") Example.page)
    as [[changes| |] t] eqn:Hc; try (vm_compute in Hc; discriminate).
  exists changes, t.
  destruct (pass_phase_ordering Example.host (lit "/") (withDefaults None)
              Example.bundle Example.scriptRegExp 10 (lit "index.html")
              Example.page H1 H2) as (Hstale & _ & _ & Hret).
  destruct (Hret changes t Hc) as (Hres & _ & Hsorted & _).
  split; [reflexivity|].
  split; [vm_compute in Hc; injection Hc as <- _; reflexivity|].
  split; [|exact Hsorted].
  rewrite <- Hres. apply (Hstale 7%nat).
Defined.

(** ** Strings *)

Lemma str_eqb_eq (a b : str) : str_eqb a b = true <-> a = b.
Proof.
  revert b. induction a as [|x a IH]; intros [|y b]; simpl; split; intros H;
    try reflexivity; try discriminate.
  - apply andb_true_iff in H. destruct H as [Hx Hab].
    apply N.eqb_eq in Hx. apply IH in Hab. now subst.
  - injection H as -> ->. apply andb_true_iff. split.
    + apply N.eqb_refl.
    + now apply IH.
Qed.

Lemma str_eqb_neq (a b : str) : str_eqb a b = false <-> a <> b.
Proof.
  split.
  - intros H E. apply str_eqb_eq in E. congruence.
  - intros H. destruct (str_eqb a b) eqn:E; [|reflexivity].
    apply str_eqb_eq in E. contradiction.
Qed.

Lemma startsWith_prefix (s p : str) :
  startsWith s p = true <-> exists rest, s = p ++ rest.
Proof.
  revert s. induction p as [|x p IH]; intros s.
  - split; [intros _; now exists s | intros _; destruct s; reflexivity].
  - destruct s as [|y s]; simpl.
    + split; [discriminate | intros [rest H]; discriminate].
    + rewrite andb_true_iff, IH. unfold char16_eqb. rewrite N.eqb_eq. split.
      * intros [-> [rest ->]]. now exists rest.
      * intros [rest H]. injection H as -> ->. split; [reflexivity | now exists rest].
Qed.

(** [includes] is the substring test. *)
Lemma includes_substring (s p : str) :
  includes s p = true <-> exists before after, s = before ++ p ++ after.
Proof.
  induction s as [|c s IH]; cbn [includes]; rewrite orb_true_iff, startsWith_prefix.
  - split.
    + intros [[rest H]|H]; [|discriminate]. exists [], rest. exact H.
    + intros (before & after & H). left.
      destruct before; [now exists after | discriminate].
  - rewrite IH. split.
    + intros [[rest H]|(before & after & ->)].
      * exists [], rest. exact H.
      * now exists (c :: before), after.
    + intros (before & after & H). destruct before as [|b before].
      * left. now exists after.
      * right. injection H as -> ->. now exists before, after.
Qed.


(** ** Paths *)

Lemma resolveLoop_absolute (paths : list str) (last_ rest acc : str) :
  resolveLoop (paths ++ [slash :: last_]) acc = (rest, false) -> False.
Proof.
  revert acc. induction paths as [|p paths IH]; intros acc H; simpl in H.
  - discriminate.
  - destruct p as [|c p]; [now apply IH in H|].
    destruct (char16_eqb c slash); [discriminate|]. now apply IH in H.
Qed.

Lemma normalizeStep_proper (kept : list str) (seg : str) :
  Forall properSegment kept ->
  Forall properSegment (normalizeStep false kept seg).
Proof.
  intros H. unfold normalizeStep.
  destruct (str_eqb seg []) eqn:E1; simpl; [exact H|].
  destruct (str_eqb seg (lit ".")) eqn:E2; simpl; [exact H|].
  destruct (str_eqb seg (lit "..")) eqn:E3.
  - destruct kept as [|top rest]; [constructor|].
    inversion H; subst. destruct (str_eqb top (lit "..")); auto.
  - constructor; [|exact H].
    apply str_eqb_neq in E1, E2, E3. repeat split; assumption.
Qed.

Lemma normalize_proper (segs kept : list str) :
  Forall properSegment kept ->
  Forall properSegment (fold_left (normalizeStep false) segs kept).
Proof.
  revert kept. induction segs as [|seg segs IH]; intros kept H; simpl.
  - exact H.
  - apply IH. now apply normalizeStep_proper.
Qed.

(** From an absolute working directory, the resolved path is absolute
    and none of its segments is empty, [.] or [..]. *)
Lemma posixResolve_normalized (cwd : str) (args : list str) :
  startsWith cwd [slash] = true ->
  exists segs,
    posixResolve cwd args = slash :: joinSlash segs /\ Forall properSegment segs.
Proof.
  intros Habs. apply startsWith_prefix in Habs. destruct Habs as [rest ->].
  change ([slash] ++ rest) with (slash :: rest).
  unfold posixResolve.
  destruct (resolveLoop _ _) as [path [|]] eqn:Hr.
  - simpl. eexists. split; [reflexivity|].
    unfold normalizeString.
    apply Forall_rev. apply normalize_proper. constructor.
  - now apply resolveLoop_absolute in Hr.
Qed.











(** Where the url does not begin with the base, [replace] takes the
    first occurrence of the base out of the middle of the url. *)
Example replace_inside_the_url :
  getBundleKey Example.host (lit "/") (lit "index.html") (lit "vendor/lib.js")
  = lit "vendorlib.js".
Proof. reflexivity. Qed.


(** ** The resolver *)

(** What the resolver does for a url is decided by [startsWith] of the
    four letters [http] alone. *)
Lemma calculateIntegrity_trace (host : Host) (base : str) (ignore : bool)
      (bundle : Bundle) (htmlPath url : str) :
  snd (calculateIntegrity host base ignore bundle htmlPath url)
  = if startsWith url (lit "http") then [Fetched url]
    else [LookedUp (getBundleKey host base htmlPath url)].
Proof.
  unfold calculateIntegrity.
  destruct (startsWith url (lit "http")).
  - simpl. destruct (fetch host url); reflexivity.
  - simpl. destruct (lookup _ bundle); [reflexivity|].
    destruct ignore; reflexivity.
Qed.

(** C3, at the input where the code leaves the claim.  The
    protocol-relative url [//cdn.example.com/lib.js] is external for the
    filter, yet the resolver looks it up in the bundle and fetches
    nothing; [httpdocs/app.js] is not external, yet the resolver fetches
    it and looks nothing up. *)
Theorem resolver_disagrees_with_filter :
  let relative := lit "//cdn.example.com/lib.js" in
  let local := lit "httpdocs/app.js" in
  isExternalUrl relative = true /\
  isExternalUrl local = false /\
  forall (host : Host) (base : str) (ignore : bool) (bundle : Bundle)
         (htmlPath : str),
    snd (calculateIntegrity host base ignore bundle htmlPath relative)
    = [LookedUp (getBundleKey host base htmlPath relative)] /\
    snd (calculateIntegrity host base ignore bundle htmlPath local)
    = [Fetched local].
Proof.
  cbv zeta. split; [reflexivity|]. split; [reflexivity|].
  intros host base ignore bundle htmlPath.
  rewrite !calculateIntegrity_trace. split; reflexivity.
Qed.

(** ** The filter *)

(** C4, as the code has it.  An include list that is set, empty or not,
    rejects every url none of its entries matches; only an include list
    that is not set leaves the decision to the exclusions. *)
Theorem include_filter (url : str) (options : SriOptions) :
  (forall patterns,
      includePatterns options = Some patterns ->
      matchesPatterns url patterns = false ->
      shouldProcessUrl url options = false) /\
  (includePatterns options = Some [] -> shouldProcessUrl url options = false) /\
  (includePatterns options = None ->
   shouldProcessUrl url options
   = negb (truthy (excludeExternal options) && isExternalUrl url)
     && negb (match excludePatterns options with
              | Some patterns => matchesPatterns url patterns
              | None => false
              end)).
Proof.
  unfold shouldProcessUrl. repeat split.
  - intros patterns -> ->.
    destruct (_ && _); [reflexivity|].
    destruct (match excludePatterns options with Some _ => _ | None => _ end); reflexivity.
  - intros ->.
    destruct (_ && _); [reflexivity|].
    destruct (match excludePatterns options with Some _ => _ | None => _ end); reflexivity.
  - intros ->.
    destruct (_ && _); [reflexivity|].
    destruct (match excludePatterns options with Some _ => _ | None => _ end); reflexivity.
Qed.

Lemma include_filter_witness :
  includePatterns (Options.includeOnly [PString (lit "vendor")])
  = Some [PString (lit "vendor")] /\
  matchesPatterns (lit "/assets/app.js") [PString (lit "vendor")] = false /\
  shouldProcessUrl (lit "/assets/app.js")
                   (Options.includeOnly [PString (lit "vendor")]) = false.
Proof.
  split; [reflexivity|]. split; [reflexivity|].
  apply (proj1 (include_filter (lit "/assets/app.js")
                  (Options.includeOnly [PString (lit "vendor")]))
               [PString (lit "vendor")]); reflexivity.
Defined.

(** C4, as the claim has it, fails: with an empty include list and no
    exclusion at all, a url is not processed; the options of the plugin
    hand the empty list on as it is. *)
Lemma empty_include_list_rejects :
  let options := Options.includeOnly [] in
  excludeExternal options = None /\
  excludePatterns options = None /\
  shouldProcessUrl (lit "/assets/app.js") options = false /\
  shouldProcessUrl (lit "/assets/app.js")
                   (filterOptions (withDefaults (Some options))) = false.
Proof.
  cbv zeta. repeat split; reflexivity.
Qed.

Lemma matchesPattern_spec (url : str) (pattern : Pattern) :
  matchesPattern url pattern = true <-> patternMatches url pattern.
Proof.
  destruct pattern as [s|test]; simpl.
  - apply includes_substring.
  - reflexivity.
Qed.

(** Exclude precedence for entries without state: a url that an entry
    of [excludePatterns] matches (a string as a substring, a regular
    expression without the [g] and [y] flags by its [test]) is not
    processed, whatever the include list says; so it is with the options
    as the plugin hands them to the filter. *)
Theorem exclude_precedence (url : str) (options : SriOptions)
        (patterns : list Pattern) (pattern : Pattern) :
  excludePatterns options = Some patterns ->
  In pattern patterns ->
  patternMatches url pattern ->
  shouldProcessUrl url options = false /\
  shouldProcessUrl url (filterOptions (withDefaults (Some options))) = false.
Proof.
  intros He Hin Hm.
  assert (Hany : matchesPatterns url patterns = true).
  { apply existsb_exists. exists pattern. split; [exact Hin|].
    now apply matchesPattern_spec. }
  split.
  - unfold shouldProcessUrl. rewrite He, Hany.
    destruct (_ && _); reflexivity.
  - unfold shouldProcessUrl, filterOptions, withDefaults.
    cbn [excludePatterns excludeExternal includePatterns orElse].
    rewrite He. cbn [orElse]. rewrite Hany.
    destruct (_ && _); reflexivity.
Qed.

Lemma exclude_precedence_witness :
  let url := lit "https://cdn.unwanted.com/lib.js" in
  let options := Options.excludeInclude [PString (lit "cdn.unwanted.com")]
                                        [PString (lit "lib.js")] in
  matchesPatterns url [PString (lit "lib.js")] = true /\
  shouldProcessUrl url options = false.
Proof.
  cbv zeta. split; [reflexivity|].
  apply (exclude_precedence _ _ [PString (lit "cdn.unwanted.com")]
                            (PString (lit "cdn.unwanted.com"))).
  - reflexivity.
  - left; reflexivity.
  - exists (lit "https://"), (lit "/lib.js"). reflexivity.
Defined.

(** ** The filter on patterns with state *)

Lemma test_stateless (r : PatternRegExp) (url : str) :
  global r = false -> sticky r = false -> snd (test r url) = r.
Proof.
  intros Hg Hs. unfold test. rewrite Hg, Hs. reflexivity.
Qed.

Lemma matchesPatternObjects_stateless (url : str) (ps : list PatternObject) :
  forallb stateless ps = true ->
  matchesPatternObjects url ps = (matchesPatterns url (map patternOf ps), ps).
Proof.
  induction ps as [|p ps IH]; intros H; [reflexivity|].
  cbn [forallb] in H. apply andb_true_iff in H. destruct H as [Hp Hps].
  specialize (IH Hps). unfold matchesPatterns in *.
  destruct p as [s|r]; cbn [matchesPatternObjects map existsb matchesPattern patternOf].
  - destruct (includes url s); [reflexivity|]. now rewrite IH.
  - cbn [stateless] in Hp. apply andb_true_iff in Hp. destruct Hp as [Hg Hs].
    apply negb_true_iff in Hg, Hs.
    pose proof (test_stateless r url Hg Hs) as Hr.
    destruct (test r url) as [b r']. cbn [fst snd] in *. subst r'.
    destruct b; [reflexivity|]. now rewrite IH.
Qed.

(** On entries without state the filter on objects is the filter of the
    other properties, and it leaves the objects as they are. *)
Lemma shouldProcessUrlOn_stateless (external : option bool) (url : str)
      (objects : PatternObjects) :
  statelessObjects objects ->
  shouldProcessUrlOn external url objects
  = (shouldProcessUrl url (optionsOf external objects), objects).
Proof.
  intros [He Hi]. destruct objects as [ex inc]. cbn [excludeObjects includeObjects] in *.
  unfold shouldProcessUrlOn, shouldProcessUrl, optionsOf.
  cbn [excludeObjects includeObjects excludeExternal excludePatterns
       includePatterns option_map].
  destruct (truthy external && isExternalUrl url); [reflexivity|].
  destruct ex as [ex|]; cbn [option_map].
  - rewrite (matchesPatternObjects_stateless url ex (He ex eq_refl)).
    destruct (matchesPatterns url (map patternOf ex)); [reflexivity|].
    cbn [includeObjects excludeObjects].
    destruct inc as [inc|]; cbn [option_map]; [|reflexivity].
    rewrite (matchesPatternObjects_stateless url inc (Hi inc eq_refl)).
    destruct (matchesPatterns url (map patternOf inc)); reflexivity.
  - cbn [includeObjects excludeObjects].
    destruct inc as [inc|]; cbn [option_map]; [|reflexivity].
    rewrite (matchesPatternObjects_stateless url inc (Hi inc eq_refl)).
    destruct (matchesPatterns url (map patternOf inc)); reflexivity.
Qed.

(** C5, at the input where the code leaves the claim.  The exclude list
    holds one regular expression with the [g] flag, for the text
    [unwanted]; the page names the url [https://cdn.unwanted.com/lib.js]
    in two script tags.  The expression matches the url, and so does the
    entry [lib.js] of the include list.  The first call of the filter
    rejects the url and leaves [lastIndex] at 20, the end of the match;
    the second call, for the same url, searches from there, finds
    nothing, and the url is processed.  The same expression without the
    flag rejects the url both times. *)
Theorem exclude_precedence_global_regexp :
  let url := Sample.unwantedUrl in
  let objects := Sample.excludeThenInclude Sample.unwantedGlobal in
  let after := snd (shouldProcessUrlOn None url objects) in
  map fst (references (scriptRe freshScanners) Sample.unwantedTwice) = [url; url] /\
  (exists before after_, url = before ++ lit "unwanted" ++ after_) /\
  fst (test Sample.unwantedGlobal url) = true /\
  includes url (lit "lib.js") = true /\
  shouldProcessUrlOn None url objects
  = (false,
     Sample.excludeThenInclude
       (mkPatternRegExp true false (mkRegExp (chars "unwanted") 20))) /\
  shouldProcessUrlOn None url after = (true, objects) /\
  shouldProcessEach None [url; url] objects = [false; true] /\
  shouldProcessEach None [url; url] (Sample.excludeThenInclude Sample.unwantedPlain)
  = [false; false].
Proof.
  cbv zeta. split; [vm_compute; reflexivity|].
  split; [exists (lit "https://cdn."), (lit ".com/lib.js"); reflexivity|].
  repeat split; vm_compute; reflexivity.
Qed.

(** ** The crossorigin policy *)

Lemma anonymous_text :
  anonymous = Example.html " crossorigin=`anonymous`".
Proof. reflexivity. Qed.

(** Through the defaults of the plugin an absent [crossorigin] option is
    [true]: the attribute is added for every url. *)
Lemma default_crossorigin (url : str) :
  getCrossoriginAttribute url (crossoriginOptions (withDefaults None)) = anonymous.
Proof. reflexivity. Qed.

(** C6. Crossorigin precedence: the value a configured custom function
    returns decides alone, whatever the static option; without a custom
    function the static option decides, and an absent one gives
    [anonymous] to external urls only. *)
Theorem crossorigin_precedence (url : str) (options : SriOptions) :
  (forall custom,
      customCrossorigin options = Some custom ->
      (custom url = JNull \/ custom url = JBool false ->
       getCrossoriginAttribute url options = []) /\
      (custom url = JBool true ->
       getCrossoriginAttribute url options = anonymous) /\
      (forall s, custom url = JString s ->
                 getCrossoriginAttribute url options
                 = lit " crossorigin=" ++ [dquote] ++ s ++ [dquote]) /\
      (forall static,
          getCrossoriginAttribute url (Options.crossoriginPolicy static (Some custom))
          = getCrossoriginAttribute url options)) /\
  (customCrossorigin options = None ->
   (crossorigin options = Some (JBool false) \/ crossorigin options = Some JNull ->
    getCrossoriginAttribute url options = []) /\
   (crossorigin options = Some (JBool true) ->
    getCrossoriginAttribute url options = anonymous) /\
   (forall s, crossorigin options = Some (JString s) ->
              getCrossoriginAttribute url options
              = lit " crossorigin=" ++ [dquote] ++ s ++ [dquote]) /\
   (crossorigin options = None ->
    getCrossoriginAttribute url options
    = if isExternalUrl url then anonymous else [])).
Proof.
  unfold getCrossoriginAttribute, staticCrossorigin. split.
  - intros custom ->. cbn [Options.crossoriginPolicy customCrossorigin].
    split; [|split; [|split]].
    + intros [-> | ->]; reflexivity.
    + intros ->; reflexivity.
    + intros s ->; reflexivity.
    + intros static; reflexivity.
  - intros ->. split; [|split; [|split]].
    + intros [-> | ->]; reflexivity.
    + intros ->; reflexivity.
    + intros s ->; reflexivity.
    + intros ->; reflexivity.
Qed.

Lemma crossorigin_precedence_witness :
  let suppress := fun _ : str => JNull in
  let options := Options.crossoriginPolicy (Some (JString (lit "use-credentials")))
                                           (Some suppress) in
  customCrossorigin options = Some suppress /\
  suppress Example.cdnStylesheet = JNull /\
  getCrossoriginAttribute Example.cdnStylesheet options = [] /\
  getCrossoriginAttribute (lit "/assets/app.js")
                          (Options.crossoriginPolicy None None) = [] /\
  getCrossoriginAttribute Example.cdnStylesheet
                          (Options.crossoriginPolicy None None) = anonymous.
Proof.
  cbv zeta. split; [reflexivity|]. split; [reflexivity|].
  destruct (crossorigin_precedence Example.cdnStylesheet
              (Options.crossoriginPolicy (Some (JString (lit "use-credentials")))
                                         (Some (fun _ : str => JNull))))
    as [Hcustom _].
  destruct (Hcustom (fun _ : str => JNull) eq_refl) as [Hnull _].
  destruct (crossorigin_precedence (lit "/assets/app.js")
              (Options.crossoriginPolicy None None)) as [_ Hlocal].
  destruct (Hlocal eq_refl) as (_ & _ & _ & Habsent).
  destruct (crossorigin_precedence Example.cdnStylesheet
              (Options.crossoriginPolicy None None)) as [_ Hcdn].
  destruct (Hcdn eq_refl) as (_ & _ & _ & Habsent').
  split; [exact (Hnull (or_introl eq_refl))|].
  split.
  - rewrite (Habsent eq_refl). reflexivity.
  - rewrite (Habsent' eq_refl). reflexivity.
Defined.

(** ** The digest *)

Lemma round_length (s : list Z) (kw : Z * Z) :
  List.length (Sha384.round s kw) = List.length s.
Proof.
  unfold Sha384.round.
  destruct s as [|a [|b [|c [|d [|e [|f [|g [|h [|i s]]]]]]]]]; reflexivity.
Qed.

Lemma rounds_length (kws : list (Z * Z)) :
  forall s, List.length (fold_left Sha384.round kws s) = List.length s.
Proof.
  induction kws as [|kw kws IH]; intros s; simpl.
  - reflexivity.
  - now rewrite IH, round_length.
Qed.

Lemma compress_length (h block : list Z) :
  List.length (Sha384.compress h block) = List.length h.
Proof.
  unfold Sha384.compress.
  rewrite length_map, length_combine, rounds_length. apply Nat.min_id.
Qed.

Lemma compress_all_length (blocks : list (list Z)) :
  forall h, List.length (fold_left Sha384.compress blocks h) = List.length h.
Proof.
  induction blocks as [|b blocks IH]; intros h; simpl.
  - reflexivity.
  - now rewrite IH, compress_length.
Qed.

Lemma bigEndian_length (n : nat) :
  forall x, List.length (Sha384.bigEndian n x) = n.
Proof.
  induction n as [|n IH]; intros x; simpl.
  - reflexivity.
  - rewrite length_app, IH. simpl. lia.
Qed.

(** A SHA-384 digest has 48 bytes. *)
Lemma sha384_length (data : list byte) : List.length (sha384 data) = 48%nat.
Proof.
  unfold sha384, Sha384.digestZ. rewrite length_map.
  set (final := fold_left Sha384.compress _ _).
  assert (H : List.length final = 8%nat).
  { subst final. now rewrite compress_all_length. }
  destruct final as [|a [|b [|c [|d [|e [|f [|g [|h [|i s]]]]]]]]]; try discriminate.
  cbn [firstn flat_map]. rewrite !length_app, !bigEndian_length. reflexivity.
Qed.

(** Its base64 form has 64 characters. *)
Lemma base64_of_digest_length (bs : list byte) :
  List.length bs = 48%nat -> List.length (base64 bs) = 64%nat.
Proof.
  intros H. unfold base64.
  assert (H' : List.length (map zOfByte bs) = 48%nat) by now rewrite length_map.
  set (zs := map zOfByte bs) in *. clearbody zs.
  do 48 (destruct zs as [|? zs]; [discriminate|]).
  destruct zs; [reflexivity | discriminate].
Qed.

(** The test vector of the standard for the message [abc], in base64. *)
Example digest_abc :
  digest (utf8 (lit "abc"))
  = lit "sha384-ywB1P0WjXou1oD1pmsZQBycsMqsO3tFjGotgWkP/W+2AhgcroefMI1i67KE0yCWn".
Proof. vm_compute. reflexivity. Qed.

Example digest_empty :
  digest []
  = lit "sha384-OLBgp1GsljhM2TJ+sbHjaiH9txEUvgdDTAzHv2P24donTt6/529l+9Ua0vFImLlb".
Proof. vm_compute. reflexivity. Qed.

(** The step of the loop at a match whose url passes the filter and
    resolves: one change, with the value the resolver returned. *)
Lemma whileExec_resolved (host : Host) (base : str) (locals : SriOptions)
      (bundle : Bundle) (regex regex' : RegExp) (endOffset : Z)
      (htmlPath html : str) (m : RegExpExecArray) (fuel : nat)
      (changes : list Change) (value : str) (t0 : list event) :
  exec regex html = (Some m, regex') ->
  shouldProcessUrl (nth 1 (m_groups m) []) (filterOptions locals) = true ->
  calculateIntegrity host base (ignoreMissingAsset locals) bundle htmlPath
                     (nth 1 (m_groups m) []) = (Returned (Some value), t0) ->
  whileExec host base locals bundle (S fuel) regex endOffset htmlPath html changes
  = let '(r, t) :=
      whileExec host base locals bundle fuel regex' endOffset htmlPath html
                (changes ++ [mkChange value
                               (getCrossoriginAttribute (nth 1 (m_groups m) [])
                                                        (crossoriginOptions locals))
                               (Z.of_nat (lastIndex regex') - endOffset)]) in
    (r, t0 ++ t).
Proof.
  intros He Hp Hc. cbn [whileExec]. rewrite He, Hp. cbn [negb].
  rewrite Hc. reflexivity.
Qed.

(** C7. Integrity digest format: when the resolution of a reference
    succeeds with the bytes [resolved] (the body fetched for a url that
    begins with [http], else the content of the bundle entry of its key:
    the UTF-8 bytes of the code of a chunk or of the text of an asset, or
    the bytes of a binary asset), the integrity value is [sha384-]
    followed by the base64 form, 64 characters, of the 48 bytes of the
    SHA-384 digest of [resolved]; at a match of the url that passes the
    filter the loop adds one change, whose text carries that value in
    its [integrity] attribute. *)
Theorem integrity_digest_format
        (host : Host) (base : str) (locals : SriOptions) (bundle : Bundle)
        (htmlPath url : str) (resolved : list byte) :
  (startsWith url (lit "http") = true /\ fetch host url = Some resolved) \/
  (startsWith url (lit "http") = false /\
   exists item, lookup (getBundleKey host base htmlPath url) bundle = Some item /\
                resolved = match item with
                           | Chunk _ code => utf8 code
                           | Asset _ (SourceText text) => utf8 text
                           | Asset _ (SourceBytes bytes) => bytes
                           end) ->
  let value := lit "sha384-" ++ base64 (sha384 resolved) in
  fst (calculateIntegrity host base (ignoreMissingAsset locals) bundle htmlPath url)
  = Returned (Some value) /\
  List.length (sha384 resolved) = 48%nat /\
  List.length (base64 (sha384 resolved)) = 64%nat /\
  forall regex regex' endOffset html m fuel changes,
    exec regex html = (Some m, regex') ->
    nth 1 (m_groups m) [] = url ->
    shouldProcessUrl url (filterOptions locals) = true ->
    let attr := getCrossoriginAttribute url (crossoriginOptions locals) in
    let change := mkChange value attr (Z.of_nat (lastIndex regex') - endOffset) in
    insertText change = lit " integrity=" ++ [dquote] ++ value ++ [dquote] ++ attr /\
    exists t0,
      whileExec host base locals bundle (S fuel) regex endOffset htmlPath html changes
      = let '(r, t) := whileExec host base locals bundle fuel regex' endOffset
                                 htmlPath html (changes ++ [change]) in
        (r, t0 ++ t).
Proof.
  intros H value.
  assert (Hv : fst (calculateIntegrity host base (ignoreMissingAsset locals)
                                       bundle htmlPath url)
               = Returned (Some value)).
  { unfold calculateIntegrity.
    destruct H as [[-> Hf] | [-> (item & Hl & ->)]].
    - simpl. now rewrite Hf.
    - simpl. rewrite Hl. simpl. unfold digest, content.
      destruct item as [f code | f [text | bytes]]; reflexivity. }
  split; [exact Hv|].
  split; [apply sha384_length|].
  split; [apply base64_of_digest_length, sha384_length|].
  intros regex regex' endOffset html m fuel changes He Hu Hp attr change.
  split; [reflexivity|].
  destruct (calculateIntegrity host base (ignoreMissingAsset locals) bundle
                               htmlPath url) as [r t0] eqn:Hc.
  simpl in Hv. subst r. exists t0. subst url.
  apply (whileExec_resolved _ _ _ _ _ _ _ _ _ _ _ _ _ _ He Hp Hc).
Qed.

Lemma integrity_digest_format_witness :
  let url := lit "/assets/b.js" in
  startsWith url (lit "http") = false /\
  lookup (getBundleKey Example.host (lit "/") (lit "index.html") url) Example.bundle
  = Some Example.bChunk /\
  fst (calculateIntegrity Example.host (lit "/") false Example.bundle
                          (lit "index.html") url)
  = Returned (Some (lit "sha384-ywB1P0WjXou1oD1pmsZQBycsMqsO3tFjGotgWkP/W+2AhgcroefMI1i67KE0yCWn")).
Proof.
  cbv zeta.
  assert (H1 : startsWith (lit "/assets/b.js") (lit "http") = false) by reflexivity.
  assert (H2 : lookup (getBundleKey Example.host (lit "/") (lit "index.html")
                                    (lit "/assets/b.js")) Example.bundle
               = Some Example.bChunk) by reflexivity.
  split; [exact H1|]. split; [exact H2|].
  destruct (integrity_digest_format Example.host (lit "/") (withDefaults None)
              Example.bundle (lit "index.html") (lit "/assets/b.js")
              (utf8 (lit "abc"))) as [Hv _].
  - right. split; [exact H1|]. exists Example.bChunk. split; [exact H2 | reflexivity].
  - change (ignoreMissingAsset (withDefaults None)) with false in Hv.
    rewrite Hv. exact (f_equal (fun v => Returned (Some v)) digest_abc).
Defined.

(** ** Missing assets *)

Section Missing.

Variable host : Host.
Variable base : str.
Variable locals : SriOptions.
Variable bundle : Bundle.
Variable htmlPath : str.
Variable url : str.

Hypothesis processed : shouldProcessUrl url (filterOptions locals) = true.
Hypothesis local : startsWith url (lit "http") = false.
Hypothesis missing : lookup (getBundleKey host base htmlPath url) bundle = None.

Lemma calculateIntegrity_missing :
  calculateIntegrity host base (ignoreMissingAsset locals) bundle htmlPath url
  = (if ignoreMissingAsset locals then Returned None
     else Thrown (AssetNotFound url),
     [LookedUp (getBundleKey host base htmlPath url)]).
Proof.
  unfold calculateIntegrity. rewrite local. simpl. rewrite missing.
  destruct (ignoreMissingAsset locals); reflexivity.
Qed.

(** The step of the loop at a match of the url. *)
Lemma whileExec_missing (regex regex' : RegExp) (endOffset : Z) (html : str)
      (m : RegExpExecArray) (fuel : nat) (changes : list Change) :
  exec regex html = (Some m, regex') ->
  nth 1 (m_groups m) [] = url ->
  whileExec host base locals bundle (S fuel) regex endOffset htmlPath html changes
  = if ignoreMissingAsset locals then
      let '(r, t) := whileExec host base locals bundle fuel regex' endOffset
                               htmlPath html changes in
      (r, LookedUp (getBundleKey host base htmlPath url) :: t)
    else (Thrown (AssetNotFound url),
          [LookedUp (getBundleKey host base htmlPath url)]).
Proof.
  intros He Hu. cbn [whileExec]. rewrite He, Hu, processed.
  cbn [negb]. rewrite calculateIntegrity_missing.
  destruct (ignoreMissingAsset locals); reflexivity.
Qed.

(** A pass with the url among its references does not return. *)
Lemma processReferences_missing (endOffset : Z) (refs : list Reference) (end_ : nat) :
  ignoreMissingAsset locals = false ->
  In (url, end_) refs ->
  forall changes,
  exists e t,
    processReferences host base locals bundle endOffset htmlPath refs changes
    = (Thrown e, t).
Proof.
  intros Hi. induction refs as [|[u e'] refs IH]; intros Hin changes.
  - destruct Hin.
  - cbn [processReferences]. destruct Hin as [Heq | Hin].
    + injection Heq as -> ->. rewrite processed. cbn [negb].
      rewrite calculateIntegrity_missing, Hi. simpl. eauto.
    + destruct (negb _); [now apply IH|].
      pose proof (calculateIntegrity_finishes host base bundle htmlPath
                    (ignoreMissingAsset locals) u) as Hfin.
      destruct (calculateIntegrity _ _ _ _ _ u) as [[[i|]| err |] t0]; simpl in *.
      * destruct (IH Hin (changes ++ [mkChange i
                   (getCrossoriginAttribute u (crossoriginOptions locals))
                   (Z.of_nat e' - endOffset)])) as (e & t & ->). eauto.
      * destruct (IH Hin changes) as (e & t & ->). eauto.
      * eauto.
      * congruence.
Qed.

End Missing.

(** A document whose passes throw is left as it was, and the loop over
    the bundle stops there. *)
Lemma visit_thrown (host : Host) (base : str) (locals : SriOptions)
      (scanners : Scanners) (bundle : Bundle) (name : str) (e : error) :
  run_outcome (visit host base locals scanners bundle name) = Thrown e ->
  run_bundle (visit host base locals scanners bundle name) = bundle /\
  forall rest,
    forIn host base locals scanners (name :: rest) bundle
    = visit host base locals scanners bundle name.
Proof.
  intros H. split.
  - unfold visit in *.
    destruct (lookup name bundle) as [[f c | f s]|]; try reflexivity.
    destruct (_ || _); [|reflexivity].
    destruct (threePasses _ _ _ _ _ _ _) as [[h| |] t]; try reflexivity.
    discriminate.
  - intros rest. cbn [forIn]. now rewrite H.
Qed.

(** Without options the plugin does not ignore missing assets. *)
Lemma default_ignoreMissingAsset : ignoreMissingAsset (withDefaults None) = false.
Proof. reflexivity. Qed.

Lemma properScanners_fresh : properScanners freshScanners.
Proof. repeat split; vm_compute; lia. Qed.

(** Missing-asset handling on the lookup path of the resolver: for a
    processed reference whose url does not begin with the four letters
    [http] and whose key is not in the bundle.  Without
    [ignoreMissingAssets] the loop throws at the reference; a pass that
    has it among its references throws; the visit of a document that
    meets it in any of its three passes ends in an error with the bundle,
    the document included, as it was, and the loop over the bundle stops
    there.  With [ignoreMissingAssets] the loop goes on to the next
    match with the changes it had: none is added for the reference. *)
Theorem missing_asset_handling
        (host : Host) (base : str) (locals : SriOptions) (bundle : Bundle)
        (htmlPath url : str) :
  shouldProcessUrl url (filterOptions locals) = true ->
  startsWith url (lit "http") = false ->
  lookup (getBundleKey host base htmlPath url) bundle = None ->
  let key := getBundleKey host base htmlPath url in
  (ignoreMissingAsset locals = false ->
   (forall regex regex' endOffset html m fuel changes,
       exec regex html = (Some m, regex') ->
       nth 1 (m_groups m) [] = url ->
       whileExec host base locals bundle (S fuel) regex endOffset htmlPath html changes
       = (Thrown (AssetNotFound url), [LookedUp key])) /\
   (forall regex endOffset html end_,
       (1 <= minLength (pattern regex))%nat ->
       In (url, end_) (references regex html) ->
       exists e t,
         transformHTML host base locals bundle regex endOffset htmlPath html
         = (Thrown e, t)) /\
   (forall scanners fileName source end_ rest,
       properScanners scanners ->
       lookup htmlPath bundle = Some (Asset fileName source) ->
       endsWith fileName (lit ".html") || endsWith fileName (lit ".htm") = true ->
       metByVisit host base locals scanners bundle htmlPath
                  (sourceToString host source) (url, end_) ->
       exists e t,
         forIn host base locals scanners (htmlPath :: rest) bundle
         = mkRun (Thrown e) t bundle)) /\
  (ignoreMissingAsset locals = true ->
   forall regex regex' endOffset html m fuel changes,
     exec regex html = (Some m, regex') ->
     nth 1 (m_groups m) [] = url ->
     whileExec host base locals bundle (S fuel) regex endOffset htmlPath html changes
     = let '(r, t) := whileExec host base locals bundle fuel regex' endOffset
                                htmlPath html changes in
       (r, LookedUp key :: t)).
Proof.
  intros Hp Hl Hm key.
  assert (Hpass : ignoreMissingAsset locals = false ->
                  forall regex endOffset html end_,
                    (1 <= minLength (pattern regex))%nat ->
                    In (url, end_) (references regex html) ->
                    exists e t,
                      transformHTML host base locals bundle regex endOffset htmlPath html
                      = (Thrown e, t)).
  { intros Hi regex endOffset html end_ Hmin Hin.
    unfold transformHTML. rewrite collectChanges_references by exact Hmin.
    destruct (processReferences_missing host base locals bundle htmlPath url
                Hp Hl Hm endOffset _ end_ Hi Hin []) as (e & t & ->).
    simpl. eauto. }
  split.
  - intros Hi. split; [|split].
    + intros regex regex' endOffset html m fuel changes He Hu.
      rewrite (whileExec_missing host base locals bundle htmlPath url Hp Hl Hm
                 regex regex' endOffset html m fuel changes He Hu).
      now rewrite Hi.
    + now apply Hpass.
    + intros scanners fileName source end_ rest (Hs1 & Hs2 & Hs3) Hlook Hhtml Hmet.
      assert (Hthree : exists e t,
                 threePasses host base locals scanners bundle htmlPath
                             (sourceToString host source) = (Thrown e, t)).
      { unfold threePasses.
        destruct Hmet as [Hin | (html1 & t1 & H1 & [Hin | (html2 & t2 & H2 & Hin)])].
        - destruct (Hpass Hi _ 10 _ _ Hs1 Hin) as (e & t & ->). simpl. eauto.
        - rewrite H1. simpl.
          destruct (Hpass Hi _ 1 _ _ Hs2 Hin) as (e & t & ->). simpl. eauto.
        - rewrite H1. simpl. rewrite H2. simpl.
          destruct (Hpass Hi _ 1 _ _ Hs3 Hin) as (e & t & ->). simpl. eauto. }
      destruct Hthree as (e & t & Ht).
      exists e, t. cbn [forIn]. unfold visit.
      rewrite Hlook, Hhtml, Ht. reflexivity.
  - intros Hi regex regex' endOffset html m fuel changes He Hu.
    rewrite (whileExec_missing host base locals bundle htmlPath url Hp Hl Hm
               regex regex' endOffset html m fuel changes He Hu).
    now rewrite Hi.
Qed.

Lemma missing_asset_handling_witness :
  let url := lit "/assets/b.js" in
  let locals := withDefaults None in
  let lenient := withDefaults (Some (Options.ignoring true)) in
  shouldProcessUrl url (filterOptions locals) = true /\
  startsWith url (lit "http") = false /\
  lookup (getBundleKey Example.host (lit "/") (lit "index.html") url)
         Example.incomplete = None /\
  In (url, 154%nat) (references (scriptRe freshScanners) Example.page) /\
  (exists e t,
      generateBundle Example.host (lit "/") locals freshScanners Example.incomplete
      = mkRun (Thrown e) t Example.incomplete) /\
  (exists m regex',
      exec (mkRegExp EXTERNAL_SCRIPT_RE 118) Example.page = (Some m, regex') /\
      nth 1 (m_groups m) [] = url /\
      whileExec Example.host (lit "/") lenient Example.incomplete 3
                (mkRegExp EXTERNAL_SCRIPT_RE 118) 10 (lit "index.html")
                Example.page []
      = (Returned [], [LookedUp (lit "assets/b.js")])).
Proof.
  cbv zeta.
  assert (H1 : shouldProcessUrl (lit "/assets/b.js") (filterOptions (withDefaults None))
               = true) by reflexivity.
  assert (H2 : startsWith (lit "/assets/b.js") (lit "http") = false) by reflexivity.
  assert (H3 : lookup (getBundleKey Example.host (lit "/") (lit "index.html")
                                    (lit "/assets/b.js")) Example.incomplete = None)
    by reflexivity.
  assert (H4 : In (lit "/assets/b.js", 154%nat)
                  (references (scriptRe freshScanners) Example.page))
    by (vm_compute; right; left; reflexivity).
  repeat (split; [assumption|]).
  split.
  - destruct (missing_asset_handling Example.host (lit "/") (withDefaults None)
                Example.incomplete (lit "index.html") (lit "/assets/b.js")
                H1 H2 H3) as [Hstrict _].
    destruct (Hstrict eq_refl) as (_ & _ & Hrun).
    apply (Hrun freshScanners (lit "index.html") (SourceText Example.page)
                154%nat [lit "assets/app.js"]).
    + exact properScanners_fresh.
    + reflexivity.
    + reflexivity.
    + left. exact H4.
  - destruct (exec (mkRegExp EXTERNAL_SCRIPT_RE 118) Example.page)
      as [[m|] regex'] eqn:He; [|vm_compute in He; discriminate].
    exists m, regex'.
    assert (Hu : nth 1 (m_groups m) [] = lit "/assets/b.js").
    { vm_compute in He. injection He as <- _. reflexivity. }
    split; [reflexivity|]. split; [exact Hu|].
    destruct (missing_asset_handling Example.host (lit "/")
                (withDefaults (Some (Options.ignoring true)))
                Example.incomplete (lit "index.html") (lit "/assets/b.js")
                H1 H2 H3) as [_ Hskip].
    rewrite (Hskip eq_refl _ regex' 10 Example.page m 2%nat [] He Hu).
    vm_compute in He. injection He as _ <-. reflexivity.
Defined.

(** C8, at the input where the code leaves the claim.  The url
    [httpdocs/app.js] is not a network url, its key is not in the bundle
    and the filter accepts it; yet the resolver takes it to the fetch,
    whatever the bundle and the flag are, and never to the lookup.  With
    a fetch that fails for it the run of the plugin ends in the error of
    the fetch with [ignoreMissingAssets] set as well as without it, where
    the claim has the missing-asset error without the flag and a silent
    skip with it. *)
Theorem missing_asset_taken_for_network :
  let url := Sample.oddUrl in
  let run options :=
    generateBundle Example.host (lit "/") (withDefaults options) freshScanners
                   Sample.oddBundle in
  isExternalUrl url = false /\
  shouldProcessUrl url (filterOptions (withDefaults None)) = true /\
  lookup (getBundleKey Example.host (lit "/") (lit "index.html") url)
         Sample.oddBundle = None /\
  fetch Example.host url = None /\
  (forall (host : Host) (base : str) (ignore : bool) (bundle : Bundle)
          (htmlPath : str),
      calculateIntegrity host base ignore bundle htmlPath url
      = (match fetch host url with
         | Some body => Returned (Some (digest body))
         | None => Thrown (FetchFailed url)
         end, [Fetched url])) /\
  run None = mkRun (Thrown (FetchFailed url)) [Fetched url] Sample.oddBundle /\
  (forall flag,
      run (Some (Options.ignoring flag))
      = mkRun (Thrown (FetchFailed url)) [Fetched url] Sample.oddBundle).
Proof.
  cbv zeta.
  split; [reflexivity|]. split; [reflexivity|]. split; [reflexivity|].
  split; [reflexivity|]. split; [|split].
  - intros host base ignore bundle htmlPath. unfold calculateIntegrity.
    change (startsWith Sample.oddUrl (lit "http")) with true. cbv iota.
    destruct (fetch host Sample.oddUrl); reflexivity.
  - vm_compute. reflexivity.
  - intros [|]; vm_compute; reflexivity.
Qed.

(** ** Termination of the model *)

Lemma transformHTML_finishes (host : Host) (base : str) (locals : SriOptions)
      (bundle : Bundle) (regex : RegExp) (endOffset : Z) (htmlPath html : str) :
  (1 <= minLength (pattern regex))%nat ->
  fst (transformHTML host base locals bundle regex endOffset htmlPath html)
  <> Unfinished.
Proof.
  intros Hmin. unfold transformHTML. apply bind_finishes.
  - rewrite collectChanges_references by exact Hmin.
    apply processReferences_finishes.
  - intros changes. simpl. discriminate.
Qed.

Lemma threePasses_finishes (host : Host) (base : str) (locals : SriOptions)
      (scanners : Scanners) (bundle : Bundle) (name html : str) :
  properScanners scanners ->
  fst (threePasses host base locals scanners bundle name html) <> Unfinished.
Proof.
  intros (H1 & H2 & H3). unfold threePasses.
  apply bind_finishes; [now apply transformHTML_finishes|]. intros html1.
  apply bind_finishes; [now apply transformHTML_finishes|]. intros html2.
  now apply transformHTML_finishes.
Qed.

(** The hook body ends, by returning or by throwing, on every bundle:
    the fuel of the loops is never what stops it. *)
Lemma generateBundle_finishes (host : Host) (base : str) (locals : SriOptions)
      (scanners : Scanners) (bundle : Bundle) :
  properScanners scanners ->
  run_outcome (generateBundle host base locals scanners bundle) <> Unfinished.
Proof.
  intros Hs. unfold generateBundle.
  generalize (map fst bundle) as names. intros names. revert bundle.
  induction names as [|name names IH]; intros bundle; cbn [forIn].
  - simpl. discriminate.
  - assert (Hv : run_outcome (visit host base locals scanners bundle name)
                 <> Unfinished).
    { unfold visit.
      destruct (lookup name bundle) as [[f c | f src]|]; try (simpl; discriminate).
      destruct (_ || _); [|simpl; discriminate].
      pose proof (threePasses_finishes host base locals scanners bundle name
                    (sourceToString host src) Hs) as Ht.
      destruct (threePasses _ _ _ _ _ _ _) as [[h| |] t]; simpl in *;
        try discriminate. congruence. }
    destruct (run_outcome (visit host base locals scanners bundle name)) eqn:Ho.
    + simpl. apply IH.
    + rewrite Ho. discriminate.
    + congruence.
Qed.

(** ** The hook adapter *)

Lemma hijackFirst_unchanged (afterHook : GenerateBundle) (plugins : list Plugin)
      (plugin : Plugin) :
  find (fun p => str_eqb (name p) VITE_INTERNAL_ANALYSIS_PLUGIN) plugins = Some plugin ->
  hijackGenerateBundle plugin afterHook = plugin ->
  hijackFirst plugins afterHook = Some plugins.
Proof.
  intros Hf Hh. induction plugins as [|p plugins IH]; simpl in *.
  - discriminate.
  - destruct (str_eqb (name p) VITE_INTERNAL_ANALYSIS_PLUGIN).
    + injection Hf as ->. now rewrite Hh.
    + now rewrite IH.
Qed.

(** C10. Silent non-installation: when the analysis plugin is there but
    its [generateBundle] is absent, or is an object without a handler,
    [hijackGenerateBundle] leaves the plugin as it is, and
    [configResolved] returns without an error and without having put the
    pass anywhere: the plugins are the ones it was given. *)
Theorem hook_not_installed (plugin : Plugin) (afterHook : GenerateBundle) :
  generateBundleHook plugin = HookUndefined \/
  generateBundleHook plugin = HookObject None ->
  hijackGenerateBundle plugin afterHook = plugin /\
  forall (host : Host) (scanners : Scanners) (options : option SriOptions)
         (config : ResolvedConfig),
    find (fun p => str_eqb (name p) VITE_INTERNAL_ANALYSIS_PLUGIN)
         (config_plugins config) = Some plugin ->
    configResolved host scanners options config = Returned (config_plugins config).
Proof.
  intros H.
  assert (Hsame : forall after, hijackGenerateBundle plugin after = plugin).
  { intros after. unfold hijackGenerateBundle. destruct H as [-> | ->]; reflexivity. }
  split; [apply Hsame|].
  intros host scanners options config Hf. unfold configResolved.
  now rewrite (hijackFirst_unchanged _ _ _ Hf (Hsame _)).
Qed.

Lemma hook_not_installed_witness :
  generateBundleHook Example.analysis = HookObject None /\
  find (fun p => str_eqb (name p) VITE_INTERNAL_ANALYSIS_PLUGIN)
       (config_plugins Example.config) = Some Example.analysis /\
  configResolved Example.host freshScanners None Example.config
  = Returned (config_plugins Example.config).
Proof.
  split; [reflexivity|]. split; [reflexivity|].
  destruct (hook_not_installed Example.analysis
              (generateBundle Example.host (lit "/") (withDefaults None) freshScanners)
              (or_intror eq_refl)) as [_ H].
  apply (H Example.host freshScanners None Example.config). reflexivity.
Defined.

(** With a function for its hook the plugin gets the pass after it, and
    without the analysis plugin the configuration is refused. *)
Lemma hook_installed (plugin : Plugin) (fn afterHook : GenerateBundle) :
  generateBundleHook plugin = HookFunction fn ->
  hijackGenerateBundle plugin afterHook
  = mkPlugin (name plugin) (HookFunction (andThen fn afterHook)).
Proof.
  intros H. unfold hijackGenerateBundle. now rewrite H.
Qed.

Lemma configResolved_without_analysis (host : Host) (scanners : Scanners)
      (options : option SriOptions) (base : str) :
  configResolved host scanners options (mkConfig base []) = Thrown UnsupportedVite.
Proof. reflexivity. Qed.

(** ** The scenarios of the specification *)

(** A build of one page with a stylesheet on a CDN and two chunks. *)
Example scenario_build :
  generateBundle Example.host (lit "/") (withDefaults None) freshScanners
                 Example.bundle
  = mkRun (Returned tt)
          [LookedUp (lit "assets/app.js"); LookedUp (lit "assets/b.js");
           Fetched Example.cdnStylesheet]
          [(lit "index.html",
            Asset (lit "index.html")
                  (SourceText (Example.html
"<head><link rel=`stylesheet` href=`https://cdn.example.com/a.css` integrity=`sha384-myyg/hQ74aSgjBBvVME/QXAXEkT4Y9dHbVQ5C0lIyGpldvNLJV2IWc5ElXbqLi06` crossorigin=`anonymous`><script type=`module` src=`/assets/app.js` integrity=`sha384-vuz+yO71bcb30P4dMUNzy6/D2y+6d/n0KcOnt5clJtTBxEDoKAqGay0stFlC8Dpr` crossorigin=`anonymous`></script><script src=`/assets/b.js` integrity=`sha384-ywB1P0WjXou1oD1pmsZQBycsMqsO3tFjGotgWkP/W+2AhgcroefMI1i67KE0yCWn` crossorigin=`anonymous`></script></head>")));
           (lit "assets/app.js", Example.appChunk);
           (lit "assets/b.js", Example.bChunk)].
Proof. vm_compute. reflexivity. Qed.

(** The same build without [assets/b.js] fails and leaves the page as it
    was. *)
Example scenario_missing :
  generateBundle Example.host (lit "/") (withDefaults None) freshScanners
                 Example.incomplete
  = mkRun (Thrown (AssetNotFound (lit "/assets/b.js")))
          [LookedUp (lit "assets/app.js"); LookedUp (lit "assets/b.js")]
          Example.incomplete.
Proof. vm_compute. reflexivity. Qed.

(** A url on the exclude list is left alone, though it resolves. *)
Example scenario_excluded :
  let bundle := [(lit "index.html",
                  Asset (lit "index.html") (SourceText Example.unwantedPage))] in
  generateBundle Example.unwantedHost (lit "/")
                 (withDefaults (Some (Options.excluding
                                        [PString (lit "cdn.unwanted.com")])))
                 freshScanners bundle
  = mkRun (Returned tt) [] bundle /\
  run_trace (generateBundle Example.unwantedHost (lit "/") (withDefaults None)
                            freshScanners bundle)
  = [Fetched Example.unwanted].
Proof. vm_compute. split; reflexivity. Qed.

(** * Further properties *)

(** ** The patcher *)

Lemma slice_split (s : str) (k : Z) :
  slice s 0 (Some k) ++ slice s k None = s.
Proof.
  unfold slice.
  assert (H0 : clampIndex (len s) 0 = 0).
  { unfold clampIndex. simpl. pose proof (len_nonneg s). lia. }
  rewrite H0.
  assert (Hc : 0 <= clampIndex (len s) k <= len s).
  { unfold clampIndex. pose proof (len_nonneg s).
    destruct (Z.ltb_spec k 0); lia. }
  set (c := clampIndex (len s) k) in *.
  rewrite Z.sub_0_r. simpl skipn.
  rewrite (firstn_all2 (n := Z.to_nat (len s - c))).
  - apply firstn_skipn.
  - rewrite length_skipn. unfold len in *. lia.
Qed.

Lemma subsequence_refl {A : Type} (l : list A) : subsequence l l.
Proof. induction l; constructor; auto. Qed.

Lemma subsequence_trans {A : Type} (l1 l2 l3 : list A) :
  subsequence l1 l2 -> subsequence l2 l3 -> subsequence l1 l3.
Proof.
  intros H12 H23. revert l1 H12.
  induction H23 as [|x l2 l3 H IH|x l2 l3 H IH]; intros l1 H12.
  - exact H12.
  - inversion H12; subst.
    + constructor. now apply IH.
    + apply sub_skip. now apply IH.
  - apply sub_skip. now apply IH.
Qed.

Lemma subsequence_insert {A : Type} (a t b : list A) :
  subsequence (a ++ b) (a ++ t ++ b).
Proof.
  induction a as [|x a IH]; simpl.
  - induction t as [|y t IHt]; simpl.
    + apply subsequence_refl.
    + now apply sub_skip.
  - now constructor.
Qed.

Lemma applyChanges_grows (changes : list Change) :
  forall (html : str) (offset : Z),
    len (applyChanges html offset changes) = len html + insertedLength changes /\
    subsequence html (applyChanges html offset changes).
Proof.
  induction changes as [|c cs IH]; intros html offset;
    cbn [applyChanges insertedLength fold_right]; cbv zeta.
  - split; [lia | apply subsequence_refl].
  - fold (insertedLength cs).
    set (k := insertPos c + offset).
    destruct (IH (slice html 0 (Some k) ++ insertText c ++ slice html k None)
                 (offset + len (insertText c))) as [Hl Hs].
    split.
    + rewrite Hl, !len_app.
      rewrite <- (slice_split html k) at 3. rewrite len_app. lia.
    + eapply subsequence_trans; [|exact Hs].
      rewrite <- (slice_split html k) at 1. apply subsequence_insert.
Qed.

(** X1. The patcher only inserts, whatever the positions of the changes
    are: its output is as long as the text and the inserted texts
    together, and the text it was given is still there, in order. *)
Theorem applyChanges_only_inserts (html : str) (offset : Z)
        (changes : list Change) :
  len (applyChanges html offset changes) = len html + insertedLength changes /\
  subsequence html (applyChanges html offset changes).
Proof. apply applyChanges_grows. Qed.

(** X2. The patcher over two lists of changes one after the other is the
    patcher over the first, then over the second from the offset the
    first has reached. *)
Theorem applyChanges_app (first second : list Change) :
  forall (html : str) (offset : Z),
    applyChanges html offset (first ++ second)
    = applyChanges (applyChanges html offset first)
                   (offset + insertedLength first) second.
Proof.
  induction first as [|c cs IH]; intros html offset;
    cbn [app applyChanges insertedLength fold_right]; cbv zeta.
  - now rewrite Z.add_0_r.
  - fold (insertedLength cs). rewrite IH. f_equal. lia.
Qed.

Lemma slice_from (s : str) (q : Z) :
  0 <= q -> slice s q None = skipn (Z.to_nat q) s.
Proof.
  intros Hq. destruct (Z.le_gt_cases q (len s)) as [Hle | Hgt].
  - apply slice_suffix; lia.
  - unfold slice, clampIndex. destruct (Z.ltb_spec q 0); [lia|].
    rewrite Z.min_r by lia. rewrite Z.sub_diag. simpl.
    symmetry. apply skipn_all2. unfold len in *; lia.
Qed.

Lemma interleave_from (html : str) (cs : list Change) :
  forall (pre : str) (q offset : Z),
    0 <= q -> 0 <= offset -> len pre = q + offset ->
    inRange (len html) cs ->
    StronglySorted Z.le (q :: map insertPos cs) ->
    applyChanges (pre ++ skipn (Z.to_nat q) html) offset cs
    = pre ++ interleave html q cs.
Proof.
  induction cs as [|c cs IH]; intros pre q offset Hq Hoff Hpre Hr Hs;
    cbn [applyChanges interleave]; cbv zeta.
  - now rewrite slice_from by lia.
  - inversion Hr as [|? ? Hc Hr']; subst.
    simpl in Hs. apply StronglySorted_inv in Hs. destruct Hs as [Hs' Hall].
    inversion Hall as [|? ? Hqc Hall']; subst.
    set (P := insertPos c) in *.
    set (T := pre ++ skipn (Z.to_nat q) html).
    assert (HT : len T = len html + offset).
    { subst T. rewrite len_app. unfold len in *. rewrite length_skipn. lia. }
    rewrite splice_inside by lia.
    assert (Hcut : firstn (Z.to_nat (P + offset)) T
                   = pre ++ slice html q (Some P)).
    { subst T. rewrite firstn_app. rewrite firstn_all2 by (unfold len in *; lia).
      f_equal. rewrite slice_window by lia. f_equal. unfold len in *. lia. }
    assert (Hrest : skipn (Z.to_nat (P + offset)) T = skipn (Z.to_nat P) html).
    { subst T. rewrite skipn_app. rewrite skipn_all2 by (unfold len in *; lia).
      simpl. rewrite skipn_skipn. f_equal. unfold len in *. lia. }
    rewrite Hcut, Hrest.
    replace ((pre ++ slice html q (Some P)) ++ insertText c ++ skipn (Z.to_nat P) html)
      with ((pre ++ slice html q (Some P) ++ insertText c) ++ skipn (Z.to_nat P) html)
      by (now rewrite <- !app_assoc).
    pose proof (len_nonneg (insertText c)) as Ht.
    rewrite IH; try lia; auto.
    + now rewrite <- !app_assoc.
    + rewrite !len_app. rewrite slice_window by lia.
      unfold len in *. rewrite length_firstn, length_skipn. lia.
Qed.

(** X3. For changes at ascending positions inside the text the patcher
    builds what one walk over the text would: the text up to the first
    position, the first inserted text, the text up to the second
    position, and so on to the end of the text. *)
Theorem applyChanges_interleave (html : str) (changes : list Change) :
  StronglySorted Z.le (map insertPos changes) ->
  inRange (len html) changes ->
  applyChanges html 0 changes = interleave html 0 changes.
Proof.
  intros Hs Hr.
  pose proof (interleave_from html changes [] 0 0 ltac:(lia) ltac:(lia)
                eq_refl Hr) as H.
  simpl in H. apply H.
  constructor; [exact Hs|].
  rewrite Forall_forall. intros x Hx. apply in_map_iff in Hx.
  destruct Hx as (c & <- & Hc). unfold inRange in Hr.
  rewrite Forall_forall in Hr. specialize (Hr c Hc). lia.
Qed.

Lemma applyChanges_interleave_witness :
  StronglySorted Z.le (map insertPos Sample.changes) /\
  inRange (len Sample.tags) Sample.changes /\
  applyChanges Sample.tags 0 Sample.changes
  = Example.html "<a integrity=`x`><b integrity=`yz` c><c integrity=``>".
Proof.
  assert (H1 : StronglySorted Z.le (map insertPos Sample.changes)).
  { repeat constructor; vm_compute; discriminate. }
  assert (H2 : inRange (len Sample.tags) Sample.changes).
  { repeat constructor; vm_compute; discriminate. }
  split; [exact H1|]. split; [exact H2|].
  rewrite (applyChanges_interleave Sample.tags Sample.changes H1 H2).
  reflexivity.
Defined.

(** ** The scanner *)

Lemma matchAtom_piece {R : Type} (a : atom) (k : str -> option R) :
  forall (s g : str) (res : R),
    matchAtom a k s = Some (g, res) -> matchesAtom a g.
Proof.
  intros s g res H. unfold matchAtom in H. unfold matchesAtom.
  destruct (a_quant a).
  - destruct s as [|c s]; [discriminate|].
    destruct (inClass (a_class a) c) eqn:Hc; [|discriminate].
    destruct (k s); simpl in H; [|discriminate].
    injection H as <- _. split; [repeat constructor; exact Hc | reflexivity].
  - split; [eapply greedy_class; eauto | exact I].
  - destruct s as [|c s]; [discriminate|].
    destruct (inClass (a_class a) c) eqn:Hc; [|discriminate].
    destruct (greedy _ _ s) as [[g0 r0]|] eqn:Hg; simpl in H; [|discriminate].
    injection H as <- _.
    split; [constructor; [exact Hc | eapply greedy_class; eauto] | simpl; lia].
Qed.

(** The captures of a match are pieces of their groups, in order. *)
Lemma matchHere_groups (r : regex) :
  forall (s : str) (n : nat) (gs : list str),
    matchHere r s = Some (n, gs) ->
    Forall2 matchesAtom (filter a_group r) gs.
Proof.
  induction r as [|a r IH]; intros s n gs H.
  - simpl in H. injection H as <- <-. constructor.
  - cbn [matchHere] in H.
    destruct (matchAtom a (matchHere r) s) as [[g [n' gs']]|] eqn:Ha;
      simpl in H; [|discriminate].
    injection H as <- <-.
    pose proof (matchAtom_piece _ _ _ _ _ Ha) as Hg.
    apply matchAtom_sound in Ha. destruct Ha as (rest & -> & Hk & _).
    apply IH in Hk. cbn [filter].
    destruct (a_group a); [constructor|]; assumption.
Qed.

Lemma matchesText_app (r1 r2 : regex) :
  forall text,
    matchesText (r1 ++ r2) text ->
    exists t1 t2, text = t1 ++ t2 /\ matchesText r1 t1 /\ matchesText r2 t2.
Proof.
  induction r1 as [|a r1 IH]; intros text H.
  - exists [], text. repeat split; auto.
  - destruct H as (piece & rest & -> & Ha & Hrest).
    destruct (IH rest Hrest) as (t1 & t2 & -> & H1 & H2).
    exists (piece ++ t1), t2. rewrite app_assoc.
    split; [reflexivity|]. split; [|exact H2].
    exists piece, t1. auto.
Qed.

Lemma matchesText_literal (s : str) :
  forall text,
    matchesText (map (fun c => mkAtom (AnyOf [c]) One false) s) text -> text = s.
Proof.
  induction s as [|c s IH]; intros text H.
  - exact H.
  - destruct H as (piece & rest & -> & [Hcls Hq] & Hrest).
    simpl in Hq. destruct piece as [|x [|y piece]]; try discriminate.
    inversion Hcls as [|? ? Hx _]; subst. simpl in Hx.
    rewrite orb_false_r in Hx. apply N.eqb_eq in Hx. subst x.
    simpl. f_equal. now apply IH.
Qed.

Lemma search_sound (r : regex) :
  forall (s : str) (i j : nat) (m : matched),
    search r s i = Some (j, m) ->
    (i <= j)%nat /\ matchHere r (skipn (j - i) s) = Some m.
Proof.
  induction s as [|c s IH]; intros i j m H; simpl in H.
  - destruct (matchHere r []) eqn:Hm; [|discriminate].
    injection H as <- <-. rewrite Nat.sub_diag. auto.
  - destruct (matchHere r (c :: s)) eqn:Hm.
    + injection H as <- <-. rewrite Nat.sub_diag. auto.
    + apply IH in H. destruct H as [Hle H]. split; [lia|].
      replace (j - i)%nat with (S (j - S i)) by lia. exact H.
Qed.

(** What [exec] returns is a match of the pattern where it says. *)
Lemma exec_match (re re' : RegExp) (html : str) (m : RegExpExecArray) :
  exec re html = (Some m, re') ->
  exists n,
    matchHere (pattern re) (skipn (m_index m) html) = Some (n, m_groups m) /\
    lastIndex re' = (m_index m + n)%nat /\
    (m_index m + n <= List.length html)%nat.
Proof.
  intros H. pose proof (exec_some _ _ _ _ H) as (_ & _ & _ & Hend).
  unfold exec in H.
  destruct (Nat.ltb_spec (List.length html) (lastIndex re)); [discriminate|].
  destruct (search (pattern re) (skipn (lastIndex re) html) (lastIndex re))
    as [[i [n gs]]|] eqn:Hs; [|discriminate].
  injection H as <- <-. simpl in *.
  apply search_sound in Hs. destruct Hs as [Hle Hm].
  rewrite skipn_skipn in Hm.
  replace (i - lastIndex re + lastIndex re)%nat with i in Hm by lia.
  exists n. auto.
Qed.

Lemma scan_Forall (P : Reference -> Prop) (html : str) (r : regex) :
  (forall re m re',
      pattern re = r -> exec re html = (Some m, re') ->
      P (nth 1 (m_groups m) [], lastIndex re')) ->
  forall fuel re, pattern re = r -> Forall P (scan fuel re html).
Proof.
  intros HP. induction fuel as [|fuel IH]; intros re Hr; simpl.
  - constructor.
  - destruct (exec re html) as [[m|] re'] eqn:He; [|constructor].
    constructor.
    + eapply HP; eauto.
    + apply IH. apply exec_some in He. destruct He as [Hp _]. congruence.
Qed.

(** A match of a pattern that ends in a literal ends in that literal:
    the code units before the end of the match are the literal's. *)
Lemma exec_closing (r1 : regex) (closing : string) (re re' : RegExp)
      (html : str) (m : RegExpExecArray) :
  pattern re = r1 ++ chars closing ->
  exec re html = (Some m, re') ->
  slice html (Z.of_nat (lastIndex re') - len (lit closing))
        (Some (Z.of_nat (lastIndex re')))
  = lit closing.
Proof.
  intros Hr He. apply exec_match in He. destruct He as (n & Hm & -> & Hend).
  pose proof (matchHere_bounds _ _ _ _ Hm) as Hb.
  apply matchHere_sound in Hm. rewrite Hr in Hm.
  apply matchesText_app in Hm. destruct Hm as (t1 & t2 & Ht & _ & H2).
  apply matchesText_literal in H2. subst t2.
  set (i := m_index m) in *.
  assert (Hhtml : html = (firstn i html ++ t1) ++ lit closing
                         ++ skipn n (skipn i html)).
  { rewrite <- app_assoc. rewrite (app_assoc t1). rewrite <- Ht.
    now rewrite !firstn_skipn. }
  assert (Hn : List.length (firstn n (skipn i html)) = n)
    by (rewrite length_firstn; lia).
  rewrite Ht, length_app in Hn.
  assert (Hpre : len (firstn i html ++ t1)
                 = Z.of_nat (i + n) - len (lit closing)).
  { unfold len. rewrite length_app, length_firstn. lia. }
  rewrite Hhtml at 1.
  replace (Z.of_nat (i + n))
    with (Z.of_nat (i + n) - len (lit closing) + len (lit closing)) at 2 by lia.
  apply slice_middle'. exact Hpre.
Qed.

Section Closing.

Variable host : Host.
Variable base : str.
Variable locals : SriOptions.
Variable bundle : Bundle.
Variable htmlPath : str.
Variable html : str.

(** The changes of a pass whose pattern ends in a literal as long as
    [endOffset] all sit right before that literal. *)
Lemma changes_before_closing (r1 : regex) (closing : string) (stale : nat)
      (changes : list Change) (t : list event) :
  (1 <= minLength (r1 ++ chars closing))%nat ->
  collectChanges host base locals bundle (mkRegExp (r1 ++ chars closing) stale)
                 (len (lit closing)) htmlPath html = (Returned changes, t) ->
  Forall (fun c => slice html (insertPos c)
                         (Some (insertPos c + len (lit closing)))
                   = lit closing) changes.
Proof.
  intros Hmin Hc.
  rewrite collectChanges_references in Hc by exact Hmin.
  apply processReferences_order in Hc. destruct Hc as (added & -> & Hsub).
  simpl.
  apply (proj1 (Forall_map insertPos
                  (fun p => slice html p (Some (p + len (lit closing)))
                            = lit closing) added)).
  eapply subsequence_Forall; [exact Hsub|].
  apply Forall_map. unfold references.
  apply (scan_Forall _ html (r1 ++ chars closing)); [|reflexivity].
  intros re m re' Hr He. unfold insertPosOf. simpl.
  replace (Z.of_nat (lastIndex re') - len (lit closing) + len (lit closing))
    with (Z.of_nat (lastIndex re')) by lia.
  eapply exec_closing; eauto.
Qed.

End Closing.

(** X4. Where a pass inserts.  Every change of the script pass sits in
    the text right before the bracket and end tag that close the
    matched tag, and every change of the two link passes right before
    the closing bracket: the attributes go inside the tag. *)
Theorem insertion_before_closing
        (host : Host) (base : str) (locals : SriOptions) (bundle : Bundle)
        (htmlPath html : str) (stale : nat) :
  (forall changes t,
      collectChanges host base locals bundle (mkRegExp EXTERNAL_SCRIPT_RE stale)
                     10 htmlPath html = (Returned changes, t) ->
      Forall (fun c => slice html (insertPos c) (Some (insertPos c + 10))
                       = lit "></script>") changes) /\
  (forall changes t,
      collectChanges host base locals bundle (mkRegExp EXTERNAL_CSS_RE stale)
                     1 htmlPath html = (Returned changes, t) ->
      Forall (fun c => slice html (insertPos c) (Some (insertPos c + 1))
                       = lit ">") changes) /\
  (forall changes t,
      collectChanges host base locals bundle (mkRegExp EXTERNAL_MODULE_RE stale)
                     1 htmlPath html = (Returned changes, t) ->
      Forall (fun c => slice html (insertPos c) (Some (insertPos c + 1))
                       = lit ">") changes).
Proof.
  split; [|split]; intros changes t Hc.
  - apply (changes_before_closing host base locals bundle htmlPath html
             (firstn 18 EXTERNAL_SCRIPT_RE) "></script>" stale changes t);
      [vm_compute; lia | exact Hc].
  - apply (changes_before_closing host base locals bundle htmlPath html
             (firstn 36 EXTERNAL_CSS_RE) ">" stale changes t);
      [vm_compute; lia | exact Hc].
  - apply (changes_before_closing host base locals bundle htmlPath html
             (firstn 39 EXTERNAL_MODULE_RE) ">" stale changes t);
      [vm_compute; lia | exact Hc].
Qed.

Lemma insertion_before_closing_witness :
  exists changes t,
    collectChanges Example.host (lit "/") (withDefaults None) Example.bundle
                   (mkRegExp EXTERNAL_SCRIPT_RE 0) 10 (lit "index.html")
                   Example.page = (Returned changes, t) /\
    map insertPos changes = [108; 144] /\
    Forall (fun c => slice Example.page (insertPos c) (Some (insertPos c + 10))
                     = lit "></script>") changes.
Proof.
  destruct (collectChanges Example.host (lit "/") (withDefaults None) Example.bundle
              (mkRegExp EXTERNAL_SCRIPT_RE 0) 10 (lit "index.html") Example.page)
    as [[changes| |] t] eqn:Hc; try (vm_compute in Hc; discriminate).
  exists changes, t. split; [reflexivity|]. split.
  - vm_compute in Hc. injection Hc as <- _. reflexivity.
  - exact (proj1 (insertion_before_closing Example.host (lit "/")
                    (withDefaults None) Example.bundle (lit "index.html")
                    Example.page 0%nat) changes t Hc).
Defined.

Lemma srcClass_chars (c : char16) :
  inClass srcClass c = true -> c <> space /\ c <> squote /\ c <> dquote.
Proof.
  unfold inClass, srcClass. cbn [lit existsb app map list_ascii_of_string].
  intros H. apply negb_true_iff in H.
  rewrite !orb_false_iff in H. destruct H as (H1 & H2 & H3 & _).
  unfold char16_eqb in *. apply N.eqb_neq in H1, H2, H3.
  unfold space, squote, dquote. simpl in H1. auto.
Qed.

Lemma hrefClass_chars (c : char16) :
  inClass hrefClass c = true ->
  c <> caret /\ c <> space /\ c <> squote /\ c <> dquote.
Proof.
  unfold inClass, hrefClass. cbn [lit existsb app map list_ascii_of_string].
  intros H. apply negb_true_iff in H.
  rewrite !orb_false_iff in H. destruct H as (H0 & H1 & H2 & H3 & _).
  unfold char16_eqb in *. apply N.eqb_neq in H0, H1, H2, H3.
  unfold caret, space, squote, dquote. simpl in H0, H1. auto.
Qed.

Lemma exec_second_group (re re' : RegExp) (html : str) (m : RegExpExecArray)
      (g1 g2 g3 : atom) :
  filter a_group (pattern re) = [g1; g2; g3] ->
  exec re html = (Some m, re') ->
  matchesAtom g2 (nth 1 (m_groups m) []).
Proof.
  intros Hg He. apply exec_match in He. destruct He as (n & Hm & _).
  apply matchHere_groups in Hm. rewrite Hg in Hm.
  inversion Hm as [|? x1 ? ? _ Hm1]; subst.
  inversion Hm1 as [|? x2 ? ? H2 Hm2]; subst.
  simpl. exact H2.
Qed.

(** X5. The urls the scanner hands on.  Whatever the text, the url of a
    script match is not empty and holds no space and no quote, and the
    url of a link match holds no caret either. *)
Theorem scanned_urls (html : str) (stale : nat) :
  Forall (fun r => scriptUrl (fst r))
         (references (mkRegExp EXTERNAL_SCRIPT_RE stale) html) /\
  Forall (fun r => linkUrl (fst r))
         (references (mkRegExp EXTERNAL_CSS_RE stale) html) /\
  Forall (fun r => linkUrl (fst r))
         (references (mkRegExp EXTERNAL_MODULE_RE stale) html).
Proof.
  assert (Hscript : forall re m re',
             pattern re = EXTERNAL_SCRIPT_RE -> exec re html = (Some m, re') ->
             scriptUrl (nth 1 (m_groups m) [])).
  { intros re m re' Hr He.
    destruct (exec_second_group re re' html m (group tagClass Star)
                (group srcClass Plus) (group tagClass Star)) as [Hcls Hq].
    - rewrite Hr. reflexivity.
    - exact He.
    - simpl in Hq. split.
      + intros E. rewrite E in Hq. simpl in Hq. lia.
      + eapply Forall_impl; [|exact Hcls]. intros c. apply srcClass_chars. }
  assert (Hlink : forall rel re m re',
             pattern re = linkPattern rel -> exec re html = (Some m, re') ->
             linkUrl (nth 1 (m_groups m) [])).
  { intros rel re m re' Hr He.
    destruct (exec_second_group re re' html m (group tagClass Star)
                (group hrefClass Plus) (group tagClass Star)) as [Hcls Hq].
    - rewrite Hr. unfold linkPattern, chars.
      rewrite !filter_app. 
      assert (Hlit : forall s, filter a_group
                                 (map (fun c => mkAtom (AnyOf [c]) One false) s) = []).
      { induction s; simpl; auto. }
      rewrite !Hlit. reflexivity.
    - exact He.
    - simpl in Hq. split.
      + intros E. rewrite E in Hq. simpl in Hq. lia.
      + eapply Forall_impl; [|exact Hcls]. intros c. apply hrefClass_chars. }
  unfold references. split; [|split].
  - apply (scan_Forall _ html EXTERNAL_SCRIPT_RE); [|reflexivity].
    intros re m re' Hr He. simpl. eapply Hscript; eauto.
  - apply (scan_Forall _ html EXTERNAL_CSS_RE); [|reflexivity].
    intros re m re' Hr He. simpl. eapply (Hlink "stylesheet"%string); eauto.
  - apply (scan_Forall _ html EXTERNAL_MODULE_RE); [|reflexivity].
    intros re m re' Hr He. simpl. eapply (Hlink "modulepreload"%string); eauto.
Qed.

(** ** The effects of a pass *)

Lemma calculateIntegrity_event (host : Host) (base : str) (ignore : bool)
      (bundle : Bundle) (htmlPath url : str) :
  snd (calculateIntegrity host base ignore bundle htmlPath url)
  = [eventOf host base htmlPath url].
Proof.
  rewrite calculateIntegrity_trace. unfold eventOf.
  destruct (startsWith url (lit "http")); reflexivity.
Qed.

Section Effects.

Variable host : Host.
Variable base : str.
Variable locals : SriOptions.
Variable bundle : Bundle.
Variable endOffset : Z.
Variable htmlPath : str.

Lemma processReferences_trace (refs : list Reference) :
  forall changes,
    let run := processReferences host base locals bundle endOffset htmlPath
                                 refs changes in
    let expected := map (eventOf host base htmlPath) (acceptedUrls locals refs) in
    (exists n, snd run = firstn n expected) /\
    (forall out, fst run = Returned out -> snd run = expected).
Proof.
  induction refs as [|[url e] refs IH]; intros changes; cbv zeta.
  - simpl. split; [exists 0%nat; reflexivity | reflexivity].
  - cbn [processReferences]. unfold acceptedUrls. cbn [map filter fst].
    fold (acceptedUrls locals refs).
    destruct (shouldProcessUrl url (filterOptions locals)); cbn [negb].
    + pose proof (calculateIntegrity_event host base (ignoreMissingAsset locals)
                    bundle htmlPath url) as Hev.
      destruct (calculateIntegrity _ _ _ _ _ _) as [[[i|]| err |] t0];
        simpl in Hev; subst t0; cbn [bind map].
      * destruct (IH (changes ++ [mkChange i
                    (getCrossoriginAttribute url (crossoriginOptions locals))
                    (Z.of_nat e - endOffset)])) as [[n Hn] Hall].
        destruct (processReferences _ _ _ _ _ _ _ _) as [r t']. simpl in *.
        split; [exists (S n); simpl; now rewrite Hn|].
        intros out Hr. now rewrite (Hall out Hr).
      * destruct (IH changes) as [[n Hn] Hall].
        destruct (processReferences _ _ _ _ _ _ _ _) as [r t']. simpl in *.
        split; [exists (S n); simpl; now rewrite Hn|].
        intros out Hr. now rewrite (Hall out Hr).
      * simpl. split; [exists 1%nat; destruct (map _ _); reflexivity|].
        intros out Hr; discriminate.
      * simpl. split; [exists 1%nat; destruct (map _ _); reflexivity|].
        intros out Hr; discriminate.
    + apply IH.
Qed.

Lemma processReferences_none (refs : list Reference) :
  acceptedUrls locals refs = [] ->
  forall changes,
    processReferences host base locals bundle endOffset htmlPath refs changes
    = (Returned changes, []).
Proof.
  induction refs as [|[url e] refs IH]; intros Hacc changes.
  - reflexivity.
  - cbn [processReferences]. unfold acceptedUrls in Hacc. cbn [map filter fst] in Hacc.
    destruct (shouldProcessUrl url (filterOptions locals)); [discriminate|].
    cbn [negb]. now apply IH.
Qed.

End Effects.

(** X6. What a pass asks of the resolver.  The trace of a pass is, in
    match order, one fetch or one lookup for each match whose url the
    filter accepts, a url met twice being resolved twice; a pass that
    throws has stopped somewhere along that list, and a pass that
    returns has gone through all of it. *)
Theorem pass_trace
        (host : Host) (base : str) (locals : SriOptions) (bundle : Bundle)
        (regex : RegExp) (endOffset : Z) (htmlPath html : str) :
  (1 <= minLength (pattern regex))%nat ->
  let run := transformHTML host base locals bundle regex endOffset htmlPath html in
  let expected := map (eventOf host base htmlPath)
                      (acceptedUrls locals (references regex html)) in
  (exists n, snd run = firstn n expected) /\
  (forall out, fst run = Returned out -> snd run = expected).
Proof.
  intros Hmin run expected. subst run. unfold transformHTML.
  rewrite collectChanges_references by exact Hmin.
  destruct (processReferences_trace host base locals bundle endOffset htmlPath
              (references regex html) []) as [[n Hn] Hall].
  fold expected in Hn, Hall.
  destruct (processReferences _ _ _ _ _ _ _ _) as [[changes| err |] t];
    simpl in *.
  - rewrite app_nil_r. split; [now exists n|].
    intros out _. now apply (Hall changes).
  - split; [now exists n | discriminate].
  - split; [now exists n | discriminate].
Qed.

Lemma pass_trace_witness :
  (1 <= minLength (pattern Example.scriptRegExp))%nat /\
  acceptedUrls (withDefaults None) (references Example.scriptRegExp Sample.twice)
  = [lit "/assets/b.js"; lit "/assets/b.js"] /\
  snd (transformHTML Example.host (lit "/") (withDefaults None) Example.bundle
                     Example.scriptRegExp 10 (lit "index.html") Sample.twice)
  = [LookedUp (lit "assets/b.js"); LookedUp (lit "assets/b.js")].
Proof.
  assert (H1 : (1 <= minLength (pattern Example.scriptRegExp))%nat)
    by (vm_compute; lia).
  split; [exact H1|]. split; [reflexivity|].
  destruct (pass_trace Example.host (lit "/") (withDefaults None) Example.bundle
              Example.scriptRegExp 10 (lit "index.html") Sample.twice H1)
    as [_ Hall].
  destruct (fst (transformHTML Example.host (lit "/") (withDefaults None)
                   Example.bundle Example.scriptRegExp 10 (lit "index.html")
                   Sample.twice)) as [out| |] eqn:Hf;
    try (vm_compute in Hf; discriminate).
  rewrite (Hall out eq_refl). reflexivity.
Defined.

(** X7. A pass none of whose matches the filter accepts, and so a pass
    over a text without a match, returns the text as it is and asks the
    resolver nothing. *)
Theorem pass_without_accepted_reference
        (host : Host) (base : str) (locals : SriOptions) (bundle : Bundle)
        (regex : RegExp) (endOffset : Z) (htmlPath html : str) :
  (1 <= minLength (pattern regex))%nat ->
  acceptedUrls locals (references regex html) = [] ->
  transformHTML host base locals bundle regex endOffset htmlPath html
  = (Returned html, []).
Proof.
  intros Hmin Hacc. unfold transformHTML.
  rewrite collectChanges_references by exact Hmin.
  rewrite processReferences_none by exact Hacc. reflexivity.
Qed.

Lemma pass_without_accepted_reference_witness :
  (1 <= minLength EXTERNAL_CSS_RE)%nat /\
  acceptedUrls (withDefaults None)
               (references (mkRegExp EXTERNAL_CSS_RE 0) Sample.twice) = [] /\
  transformHTML Example.host (lit "/") (withDefaults None) Example.bundle
                (mkRegExp EXTERNAL_CSS_RE 0) 1 (lit "index.html") Sample.twice
  = (Returned Sample.twice, []).
Proof.
  assert (H1 : (1 <= minLength EXTERNAL_CSS_RE)%nat) by (vm_compute; lia).
  assert (H2 : acceptedUrls (withDefaults None)
                 (references (mkRegExp EXTERNAL_CSS_RE 0) Sample.twice) = [])
    by reflexivity.
  split; [exact H1|]. split; [exact H2|].
  exact (pass_without_accepted_reference Example.host (lit "/") (withDefaults None)
           Example.bundle (mkRegExp EXTERNAL_CSS_RE 0) 1 (lit "index.html")
           Sample.twice H1 H2).
Defined.

(** ** The resolver, case by case *)

(** X8. How the resolver ends.  It returns [null] only for a url that
    does not begin with [http], whose key is not in the bundle, under
    [ignoreMissingAssets]; a value it returns has the prefix [sha384-]
    and 71 characters, so the test of line 136 skips the [null]s and
    nothing else; and it throws either for such a missing key without
    the flag or for a url that begins with [http] and whose fetch
    fails. *)
Theorem calculateIntegrity_outcomes
        (host : Host) (base : str) (ignore : bool) (bundle : Bundle)
        (htmlPath url : str) :
  match fst (calculateIntegrity host base ignore bundle htmlPath url) with
  | Returned None =>
      startsWith url (lit "http") = false /\
      lookup (getBundleKey host base htmlPath url) bundle = None /\
      ignore = true
  | Returned (Some value) =>
      List.length value = 71%nat /\ startsWith value (lit "sha384-") = true
  | Thrown e =>
      (e = AssetNotFound url /\ startsWith url (lit "http") = false /\
       lookup (getBundleKey host base htmlPath url) bundle = None /\
       ignore = false) \/
      (e = FetchFailed url /\ startsWith url (lit "http") = true /\
       fetch host url = None)
  | Unfinished => False
  end.
Proof.
  assert (Hd : forall c, List.length (digest c) = 71%nat /\
                         startsWith (digest c) (lit "sha384-") = true).
  { intros c. unfold digest. split.
    - rewrite length_app, base64_of_digest_length by apply sha384_length.
      reflexivity.
    - apply startsWith_prefix. eexists; reflexivity. }
  unfold calculateIntegrity.
  destruct (startsWith url (lit "http")) eqn:Hs.
  - simpl. destruct (fetch host url) eqn:Hf; simpl.
    + apply Hd.
    + right. auto.
  - simpl. destruct (lookup _ bundle) eqn:Hl; simpl.
    + apply Hd.
    + destruct ignore; simpl; [auto | left; auto].
Qed.

(** ** The hook body as a whole *)

Lemma bind_thrown {A B : Type} (m : Eff A) (f : A -> Eff B) (e : error)
      (t : list event) :
  bind m f = (Thrown e, t) ->
  fst m = Thrown e \/ exists a, fst m = Returned a /\ fst (f a) = Thrown e.
Proof.
  destruct m as [[a| e0 |] t0]; simpl.
  - destruct (f a) as [r t'] eqn:Hf. intros H. injection H as -> _.
    right. exists a. rewrite Hf. auto.
  - intros H. injection H as -> _. auto.
  - discriminate.
Qed.

Lemma bind_trace {A B : Type} (P : event -> Prop) (m : Eff A) (f : A -> Eff B) :
  Forall P (snd m) -> (forall a, Forall P (snd (f a))) ->
  Forall P (snd (bind m f)).
Proof.
  intros Hm Hf. destruct m as [[a| e0 |] t0]; simpl in *; auto.
  specialize (Hf a). destruct (f a) as [r t']. simpl in *.
  apply Forall_app. auto.
Qed.

Section Whole.

Variable host : Host.
Variable base : str.
Variable locals : SriOptions.

(** What holds of the errors and of the events of the resolver, at the
    urls the filter accepts, holds of those of a whole run. *)
Variable Q : error -> Prop.
Variable P : event -> Prop.

Hypothesis resolver_errors :
  forall bundle htmlPath url e,
    shouldProcessUrl url (filterOptions locals) = true ->
    fst (calculateIntegrity host base (ignoreMissingAsset locals) bundle
                            htmlPath url) = Thrown e ->
    Q e.

Hypothesis resolver_events :
  forall bundle htmlPath url,
    shouldProcessUrl url (filterOptions locals) = true ->
    Forall P (snd (calculateIntegrity host base (ignoreMissingAsset locals)
                                      bundle htmlPath url)).

Lemma whileExec_lift (bundle : Bundle) (endOffset : Z) (htmlPath html : str) :
  forall fuel regex changes,
    let run := whileExec host base locals bundle fuel regex endOffset
                         htmlPath html changes in
    (forall e, fst run = Thrown e -> Q e) /\ Forall P (snd run).
Proof.
  induction fuel as [|fuel IH]; intros regex changes; cbv zeta.
  - simpl. split; [discriminate | constructor].
  - cbn [whileExec]. destruct (exec regex html) as [[m|] regex'].
    + destruct (shouldProcessUrl (nth 1 (m_groups m) []) (filterOptions locals))
        eqn:Hacc; cbn [negb].
      * split.
        -- intros e He.
           destruct (bind _ _) as [r t] eqn:Hb. simpl in He. subst r.
           apply bind_thrown in Hb. destruct Hb as [Hc | (a & _ & Hf)].
           ++ eapply resolver_errors; eauto.
           ++ destruct a as [i|]; eapply (proj1 (IH _ _)); eauto.
        -- apply bind_trace; [now apply resolver_events|].
           intros [i|]; apply (proj2 (IH _ _)).
      * apply IH.
    + simpl. split; [discriminate | constructor].
Qed.

Lemma transformHTML_lift (bundle : Bundle) (regex : RegExp) (endOffset : Z)
      (htmlPath html : str) :
  let run := transformHTML host base locals bundle regex endOffset htmlPath html in
  (forall e, fst run = Thrown e -> Q e) /\ Forall P (snd run).
Proof.
  cbv zeta. unfold transformHTML, collectChanges.
  destruct (whileExec_lift bundle endOffset htmlPath html (S (List.length html))
              (mkRegExp (pattern regex) 0) []) as [He Ht].
  split.
  - intros e H. destruct (bind _ _) as [r t] eqn:Hb. simpl in H. subst r.
    apply bind_thrown in Hb. destruct Hb as [Hc | (a & _ & Hf)]; [auto|].
    simpl in Hf. discriminate.
  - apply bind_trace; [exact Ht|]. intros a. constructor.
Qed.

Lemma generateBundle_lift (scanners : Scanners) (bundle : Bundle) :
  let run := generateBundle host base locals scanners bundle in
  (forall e, run_outcome run = Thrown e -> Q e) /\ Forall P (run_trace run).
Proof.
  cbv zeta. unfold generateBundle.
  generalize (map fst bundle) as names. intros names. revert bundle.
  induction names as [|name names IH]; intros bundle; cbn [forIn].
  - simpl. split; [discriminate | constructor].
  - assert (Hthree : forall html,
               let run := threePasses host base locals scanners bundle name html in
               (forall e, fst run = Thrown e -> Q e) /\ Forall P (snd run)).
    { intros html. cbv zeta. unfold threePasses. split.
      - intros e H. destruct (bind _ _) as [r t] eqn:Hb. simpl in H. subst r.
        apply bind_thrown in Hb. destruct Hb as [Hc | (h1 & _ & Hf)].
        + eapply (proj1 (transformHTML_lift _ _ _ _ _)); eauto.
        + destruct (bind _ _) as [r t'] eqn:Hb' in Hf. simpl in Hf. subst r.
          apply bind_thrown in Hb'. destruct Hb' as [Hc | (h2 & _ & Hf')].
          * eapply (proj1 (transformHTML_lift _ _ _ _ _)); eauto.
          * eapply (proj1 (transformHTML_lift _ _ _ _ _)); eauto.
      - apply bind_trace; [apply transformHTML_lift|]. intros h1.
        apply bind_trace; [apply transformHTML_lift|]. intros h2.
        apply transformHTML_lift. }
    assert (Hvisit : (forall e, run_outcome (visit host base locals scanners
                                               bundle name) = Thrown e -> Q e) /\
                     Forall P (run_trace (visit host base locals scanners
                                                bundle name))).
    { unfold visit.
      destruct (lookup name bundle) as [[f c | f src]|];
        try (simpl; split; [discriminate | constructor]).
      destruct (_ || _); [|simpl; split; [discriminate | constructor]].
      destruct (Hthree (sourceToString host src)) as [He Ht].
      destruct (threePasses _ _ _ _ _ _ _) as [[h| e0 |] t]; simpl in *;
        (split; [|exact Ht]); intros e H; try discriminate.
      apply He. injection H as ->. reflexivity. }
    destruct Hvisit as [Hve Hvt].
    destruct (run_outcome (visit host base locals scanners bundle name)) eqn:Ho.
    + simpl. destruct (IH (run_bundle (visit host base locals scanners bundle name)))
        as [He Ht].
      split; [exact He | apply Forall_app; auto].
    + split; [|exact Hvt]. intros e0 H. apply Hve. congruence.
    + split; [|exact Hvt]. intros e0 H. congruence.
Qed.

End Whole.

(** How the resolver throws: for a missing key without the flag, or
    for a fetch that fails. *)
Lemma calculateIntegrity_thrown (host : Host) (base : str) (ignore : bool)
      (bundle : Bundle) (htmlPath url : str) (e : error) :
  fst (calculateIntegrity host base ignore bundle htmlPath url) = Thrown e ->
  (e = AssetNotFound url /\ startsWith url (lit "http") = false /\ ignore = false) \/
  (e = FetchFailed url /\ startsWith url (lit "http") = true /\
   fetch host url = None).
Proof.
  unfold calculateIntegrity.
  destruct (startsWith url (lit "http")) eqn:Hs.
  - simpl. destruct (fetch host url) eqn:Hf; simpl; [discriminate|].
    intros H. injection H as <-. right. auto.
  - simpl. destruct (lookup _ bundle) eqn:Hl; simpl; [discriminate|].
    destruct ignore; simpl; [discriminate|].
    intros H. injection H as <-. left. auto.
Qed.

(** X9. How the hook body can fail when the options hold no
    [customCrossorigin] function, so that no code of the user is called
    during a run.  An error of a run over a bundle is then the missing
    asset of a url the filter accepts, not beginning with [http], met
    without [ignoreMissingAssets], or the failed fetch of a url the
    filter accepts that begins with [http]; with [ignoreMissingAssets]
    only a fetch can fail. *)
Theorem generateBundle_errors
        (host : Host) (base : str) (locals : SriOptions) (scanners : Scanners)
        (bundle : Bundle) (e : error) :
  customCrossorigin locals = None ->
  run_outcome (generateBundle host base locals scanners bundle) = Thrown e ->
  exists url,
    shouldProcessUrl url (filterOptions locals) = true /\
    ((e = AssetNotFound url /\ startsWith url (lit "http") = false /\
      ignoreMissingAsset locals = false) \/
     (e = FetchFailed url /\ startsWith url (lit "http") = true /\
      fetch host url = None)).
Proof.
  intros _.
  apply (proj1 (generateBundle_lift host base locals
                  (fun e => exists url,
                       shouldProcessUrl url (filterOptions locals) = true /\
                       ((e = AssetNotFound url /\
                         startsWith url (lit "http") = false /\
                         ignoreMissingAsset locals = false) \/
                        (e = FetchFailed url /\
                         startsWith url (lit "http") = true /\
                         fetch host url = None)))
                  (fun _ => True)
                  ltac:(intros b h u e0 Hacc He; exists u; split; [exact Hacc|];
                        exact (calculateIntegrity_thrown host base _ b h u e0 He))
                  ltac:(intros b h u _; apply Forall_forall; auto)
                  scanners bundle)).
Qed.

Lemma generateBundle_errors_witness :
  customCrossorigin (withDefaults None) = None /\
  run_outcome (generateBundle Example.host (lit "/") (withDefaults None)
                              freshScanners Example.incomplete)
  = Thrown (AssetNotFound (lit "/assets/b.js")) /\
  exists url,
    shouldProcessUrl url (filterOptions (withDefaults None)) = true /\
    ((AssetNotFound (lit "/assets/b.js") = AssetNotFound url /\
      startsWith url (lit "http") = false /\
      ignoreMissingAsset (withDefaults None) = false) \/
     (AssetNotFound (lit "/assets/b.js") = FetchFailed url /\
      startsWith url (lit "http") = true /\
      fetch Example.host url = None)).
Proof.
  assert (H0 : customCrossorigin (withDefaults None) = None) by reflexivity.
  assert (H : run_outcome (generateBundle Example.host (lit "/") (withDefaults None)
                             freshScanners Example.incomplete)
              = Thrown (AssetNotFound (lit "/assets/b.js")))
    by (vm_compute; reflexivity).
  split; [exact H0|]. split; [exact H|].
  exact (generateBundle_errors Example.host (lit "/") (withDefaults None)
           freshScanners Example.incomplete _ H0 H).
Defined.

(** X10. With [excludeExternal] a run fetches no url that is external:
    none that begins with [http://], [https://] or [//]. *)
Theorem excludeExternal_fetches_nothing_external
        (host : Host) (base : str) (options : SriOptions) (scanners : Scanners)
        (bundle : Bundle) (url : str) :
  excludeExternal options = Some true ->
  In (Fetched url)
     (run_trace (generateBundle host base (withDefaults (Some options))
                                scanners bundle)) ->
  isExternalUrl url = false.
Proof.
  intros Hx Hin.
  set (locals := withDefaults (Some options)) in *.
  set (P := fun ev => forall u, ev = Fetched u -> isExternalUrl u = false).
  assert (Hev : forall b h u,
             shouldProcessUrl u (filterOptions locals) = true ->
             Forall P (snd (calculateIntegrity host base (ignoreMissingAsset locals)
                                               b h u))).
  { intros b h u Hacc. rewrite calculateIntegrity_event.
    constructor; [|constructor].
    intros u' Hu. unfold eventOf in Hu.
    destruct (startsWith u (lit "http")); [|discriminate].
    injection Hu as <-.
    unfold shouldProcessUrl, filterOptions, locals, withDefaults in Hacc.
    cbn [excludeExternal orElse] in Hacc.
    rewrite Hx in Hacc. cbn [orElse truthy] in Hacc.
    destruct (isExternalUrl u); [discriminate | reflexivity]. }
  pose proof (proj2 (generateBundle_lift host base locals (fun _ => True) P
                       ltac:(intros; exact I) Hev scanners bundle)) as Hall.
  rewrite Forall_forall in Hall. exact (Hall _ Hin url eq_refl).
Qed.

Lemma excludeExternal_fetches_nothing_external_witness :
  excludeExternal Sample.noExternal = Some true /\
  In (Fetched Sample.oddUrl)
     (run_trace (generateBundle Example.unwantedHost (lit "/")
                                (withDefaults (Some Sample.noExternal))
                                freshScanners Sample.oddBundle)) /\
  isExternalUrl Sample.oddUrl = false.
Proof.
  assert (H1 : excludeExternal Sample.noExternal = Some true) by reflexivity.
  assert (H2 : In (Fetched Sample.oddUrl)
                  (run_trace (generateBundle Example.unwantedHost (lit "/")
                                (withDefaults (Some Sample.noExternal))
                                freshScanners Sample.oddBundle)))
    by (vm_compute; left; reflexivity).
  split; [exact H1|]. split; [exact H2|].
  exact (excludeExternal_fetches_nothing_external Example.unwantedHost (lit "/")
           Sample.noExternal freshScanners Sample.oddBundle Sample.oddUrl H1 H2).
Defined.

(** ** The filter *)

Lemma matchesPatterns_app (url : str) (ps qs : list Pattern) :
  matchesPatterns url (ps ++ qs)
  = matchesPatterns url ps || matchesPatterns url qs.
Proof. unfold matchesPatterns. apply existsb_app. Qed.

(** X11. The lists of the filter are monotone.  A url rejected under an
    exclude list is rejected under every longer one, and a url accepted
    under an include list is accepted under every longer one, the other
    options being the same. *)
Theorem filter_monotone
        (url : str) (ignore : option bool) (static : option jsval)
        (custom : option (str -> jsval)) (external : option bool)
        (exclude include : option (list Pattern))
        (excluded included more : list Pattern) :
  (shouldProcessUrl url (mkSriOptions ignore static custom external
                                      (Some excluded) include) = false ->
   shouldProcessUrl url (mkSriOptions ignore static custom external
                                      (Some (excluded ++ more)) include) = false) /\
  (shouldProcessUrl url (mkSriOptions ignore static custom external
                                      exclude (Some included)) = true ->
   shouldProcessUrl url (mkSriOptions ignore static custom external
                                      exclude (Some (included ++ more))) = true).
Proof.
  unfold shouldProcessUrl. cbn [excludeExternal excludePatterns includePatterns].
  rewrite !matchesPatterns_app.
  destruct (truthy external && isExternalUrl url); [split; auto; discriminate|].
  split.
  - destruct (matchesPatterns url excluded); simpl; [reflexivity|].
    destruct include as [ps|].
    + destruct (matchesPatterns url ps); simpl; [discriminate|].
      intros _. destruct (matchesPatterns url more); reflexivity.
    + discriminate.
  - destruct (match exclude with Some ps => matchesPatterns url ps | None => false end);
      [discriminate|].
    destruct (matchesPatterns url included); simpl; [reflexivity | discriminate].
Qed.

Lemma filter_monotone_witness :
  let url := lit "/assets/vendor.js" in
  shouldProcessUrl url (mkSriOptions None None None None
                                     (Some [PString (lit "vendor")]) None) = false /\
  shouldProcessUrl url (mkSriOptions None None None None
                                     (Some ([PString (lit "vendor")]
                                            ++ [PString (lit "cdn")])) None) = false.
Proof.
  cbv zeta.
  assert (H : shouldProcessUrl (lit "/assets/vendor.js")
                (mkSriOptions None None None None
                              (Some [PString (lit "vendor")]) None) = false)
    by reflexivity.
  split; [exact H|].
  exact (proj1 (filter_monotone (lit "/assets/vendor.js") None None None None
                  None None [PString (lit "vendor")] [] [PString (lit "cdn")]) H).
Defined.

(** X12. A list of patterns matches a url exactly when one of its
    entries does, so an empty list matches no url; and a list that holds
    the empty string matches every url. *)
Theorem matchesPatterns_some (url : str) (patterns : list Pattern) :
  (matchesPatterns url patterns = true <->
   exists pattern, In pattern patterns /\ patternMatches url pattern) /\
  matchesPatterns url [] = false /\
  (In (PString []) patterns -> matchesPatterns url patterns = true).
Proof.
  assert (Hiff : matchesPatterns url patterns = true <->
                 exists pattern, In pattern patterns /\ patternMatches url pattern).
  { unfold matchesPatterns. rewrite existsb_exists. split.
    - intros (p & Hin & Hm). exists p. split; [exact Hin|].
      now apply matchesPattern_spec.
    - intros (p & Hin & Hm). exists p. split; [exact Hin|].
      now apply matchesPattern_spec. }
  split; [exact Hiff|]. split; [reflexivity|].
  intros Hin. apply Hiff. exists (PString []). split; [exact Hin|].
  simpl. exists [], url. reflexivity.
Qed.

Lemma matchesPatterns_some_witness :
  In (PString []) [PString (lit "cdn"); PString []] /\
  matchesPatterns (lit "/assets/app.js") [PString (lit "cdn"); PString []] = true /\
  shouldProcessUrl (lit "/assets/app.js")
                   (Options.excluding [PString (lit "cdn"); PString []]) = false.
Proof.
  assert (H : In (PString []) [PString (lit "cdn"); PString []])
    by (right; left; reflexivity).
  split; [exact H|].
  pose proof (proj2 (proj2 (matchesPatterns_some (lit "/assets/app.js")
                              [PString (lit "cdn"); PString []])) H) as Hm.
  split; [exact Hm|].
  unfold shouldProcessUrl, Options.excluding.
  cbn [excludeExternal excludePatterns truthy andb]. now rewrite Hm.
Defined.

(** ** Bundle keys *)

Lemma lookup_absolute_key (bundle : Bundle) (key : str) :
  startsWith key [slash] = true ->
  Forall (fun entry => startsWith (fst entry) [slash] = false) bundle ->
  lookup key bundle = None.
Proof.
  intros Hk. induction bundle as [|[k item] bundle IH]; intros Hb; simpl.
  - reflexivity.
  - inversion Hb as [|? ? Hrel Hb']; subst. simpl in Hrel.
    destruct (str_eqb k key) eqn:E.
    + apply str_eqb_eq in E. subst k. congruence.
    + now apply IH.
Qed.

(** X13. With the base [./] or the empty string, and an absolute
    working directory, every key is an absolute path.  In a bundle none
    of whose keys begins with a slash no key is found: a url that does
    not begin with [http] is skipped under [ignoreMissingAssets] and is
    a missing asset without it, whatever the bundle holds. *)
Theorem relative_base_finds_nothing
        (host : Host) (base : str) (ignore : bool) (bundle : Bundle)
        (htmlPath url : str) :
  startsWith (cwd host) [slash] = true ->
  base = lit "./" \/ base = [] ->
  Forall (fun entry => startsWith (fst entry) [slash] = false) bundle ->
  startsWith (getBundleKey host base htmlPath url) [slash] = true /\
  lookup (getBundleKey host base htmlPath url) bundle = None /\
  (startsWith url (lit "http") = false ->
   fst (calculateIntegrity host base ignore bundle htmlPath url)
   = if ignore then Returned None else Thrown (AssetNotFound url)).
Proof.
  intros Hcwd Hbase Hkeys.
  assert (Hkey : getBundleKey host base htmlPath url
                 = posixResolve (cwd host) [htmlPath; url]).
  { unfold getBundleKey.
    destruct Hbase as [-> | ->]; reflexivity. }
  assert (Habs : startsWith (getBundleKey host base htmlPath url) [slash] = true).
  { rewrite Hkey.
    destruct (posixResolve_normalized (cwd host) [htmlPath; url] Hcwd)
      as (segs & -> & _).
    apply startsWith_prefix. now exists (joinSlash segs). }
  assert (Hnone : lookup (getBundleKey host base htmlPath url) bundle = None)
    by (now apply lookup_absolute_key).
  split; [exact Habs|]. split; [exact Hnone|].
  intros Hs. unfold calculateIntegrity. rewrite Hs. simpl. rewrite Hnone.
  destruct ignore; reflexivity.
Qed.

Lemma relative_base_finds_nothing_witness :
  startsWith (cwd Example.host) [slash] = true /\
  Forall (fun entry => startsWith (fst entry) [slash] = false) Example.bundle /\
  getBundleKey Example.host (lit "./") (lit "index.html") (lit "./assets/app.js")
  = lit "/work/index.html/assets/app.js" /\
  fst (calculateIntegrity Example.host (lit "./") false Example.bundle
                          (lit "index.html") (lit "./assets/app.js"))
  = Thrown (AssetNotFound (lit "./assets/app.js")).
Proof.
  assert (H1 : startsWith (cwd Example.host) [slash] = true) by reflexivity.
  assert (H2 : Forall (fun entry => startsWith (fst entry) [slash] = false)
                      Example.bundle) by (repeat constructor).
  split; [exact H1|]. split; [exact H2|]. split; [reflexivity|].
  destruct (relative_base_finds_nothing Example.host (lit "./") false Example.bundle
              (lit "index.html") (lit "./assets/app.js") H1
              (or_introl eq_refl) H2) as (_ & _ & H).
  apply H. reflexivity.
Defined.

(** X14. With the base [./] or the empty string the key of a url that
    begins with a slash is the same in every document and from every
    working directory. *)
Theorem relative_base_absolute_url
        (host host' : Host) (base htmlPath htmlPath' url : str) :
  base = lit "./" \/ base = [] ->
  startsWith url [slash] = true ->
  getBundleKey host base htmlPath url = getBundleKey host' base htmlPath' url.
Proof.
  intros Hbase Hu. apply startsWith_prefix in Hu. destruct Hu as [rest ->].
  unfold getBundleKey. destruct Hbase as [-> | ->]; reflexivity.
Qed.

Lemma relative_base_absolute_url_witness :
  startsWith (lit "/assets/app.js") [slash] = true /\
  getBundleKey Example.host (lit "./") (lit "index.html") (lit "/assets/app.js")
  = lit "/assets/app.js" /\
  getBundleKey Example.unwantedHost (lit "./") (lit "nested/index.html")
               (lit "/assets/app.js")
  = lit "/assets/app.js".
Proof.
  assert (H : startsWith (lit "/assets/app.js") [slash] = true) by reflexivity.
  split; [exact H|]. split; [reflexivity|].
  rewrite <- (relative_base_absolute_url Example.host Example.unwantedHost
                (lit "./") (lit "index.html") (lit "nested/index.html")
                (lit "/assets/app.js") (or_introl eq_refl) H).
  reflexivity.
Defined.

Lemma removeFirst_absent (p : str) :
  forall s, includes s p = false -> removeFirst s p = s.
Proof.
  induction s as [|c s IH]; intros H; cbn [includes] in H;
    apply orb_false_iff in H; destruct H as [Hs Hi]; cbn [removeFirst];
    rewrite Hs.
  - reflexivity.
  - f_equal. now apply IH.
Qed.

Lemma removeFirst_present (p : str) :
  forall s,
    includes s p = true ->
    exists before after,
      s = before ++ p ++ after /\
      removeFirst s p = before ++ after /\
      forall k, (k < List.length before)%nat ->
                startsWith (skipn k s) p = false.
Proof.
  induction s as [|c s IH]; intros H; cbn [includes] in H; cbn [removeFirst].
  - rewrite orb_false_r in H. rewrite H.
    apply startsWith_prefix in H. destruct H as [rest Hr].
    exists [], rest. split; [exact Hr|]. split.
    + rewrite Hr at 1. now rewrite skipn_app, Nat.sub_diag, skipn_all.
    + simpl; intros k Hk; lia.
  - destruct (startsWith (c :: s) p) eqn:Hs.
    + apply startsWith_prefix in Hs. destruct Hs as [rest Hr].
      exists [], rest. split; [exact Hr|]. split.
      * rewrite Hr at 1. now rewrite skipn_app, Nat.sub_diag, skipn_all.
      * simpl; intros k Hk; lia.
    + simpl in H. destruct (IH H) as (before & after & -> & Hrm & Hmin).
      exists (c :: before), after. split; [reflexivity|]. split.
      * now rewrite Hrm.
      * intros [|k] Hk; [exact Hs|]. simpl in Hk. simpl. apply Hmin. lia.
Qed.

(** X15. With any other base the key is the url with the first
    occurrence of the base taken out, wherever in the url it is, and the
    url itself when the base does not occur in it. *)
Theorem other_base_key (host : Host) (base htmlPath url : str) :
  base <> lit "./" -> base <> [] ->
  (includes url base = false -> getBundleKey host base htmlPath url = url) /\
  (includes url base = true ->
   exists before after,
     url = before ++ base ++ after /\
     getBundleKey host base htmlPath url = before ++ after /\
     forall k, (k < List.length before)%nat ->
               startsWith (skipn k url) base = false).
Proof.
  intros H1 H2.
  assert (Hkey : getBundleKey host base htmlPath url = removeFirst url base).
  { unfold getBundleKey.
    apply str_eqb_neq in H1, H2. now rewrite H1, H2. }
  rewrite Hkey. split.
  - apply removeFirst_absent.
  - apply removeFirst_present.
Qed.

Lemma other_base_key_witness :
  lit "/app/" <> lit "./" /\ lit "/app/" <> [] /\
  includes (lit "x/app/y.js") (lit "/app/") = true /\
  getBundleKey Example.host (lit "/app/") (lit "index.html") (lit "x/app/y.js")
  = lit "xy.js" /\
  getBundleKey Example.host (lit "/app/") (lit "index.html") (lit "assets/y.js")
  = lit "assets/y.js".
Proof.
  assert (H1 : lit "/app/" <> lit "./") by discriminate.
  assert (H2 : lit "/app/" <> []) by discriminate.
  split; [exact H1|]. split; [exact H2|]. split; [reflexivity|]. split.
  - reflexivity.
  - exact (proj1 (other_base_key Example.host (lit "/app/") (lit "index.html")
                    (lit "assets/y.js") H1 H2) eq_refl).
Defined.

(** ** The options as the plugin reads them *)

(** X16. Through the defaults of the plugin, and without a custom
    function, the attribute is the same for every url, external or not:
    none for [false] and [null], the given value for a string, and
    [anonymous] both for [true] and for an option left out. *)
Theorem plugin_crossorigin (options : option SriOptions) (url : str) :
  customCrossorigin (orElse options noOptions) = None ->
  getCrossoriginAttribute url (crossoriginOptions (withDefaults options))
  = match crossorigin (orElse options noOptions) with
    | None | Some (JBool true) => anonymous
    | Some (JBool false) | Some JNull => []
    | Some (JString s) => crossoriginWith s
    end.
Proof.
  intros Hc. unfold getCrossoriginAttribute, crossoriginOptions, withDefaults.
  cbn [customCrossorigin crossorigin]. rewrite Hc.
  unfold staticCrossorigin. cbn [crossorigin].
  destruct (crossorigin (orElse options noOptions)) as [[| [|] | s]|]; reflexivity.
Qed.

Lemma plugin_crossorigin_witness :
  customCrossorigin (orElse None noOptions) = None /\
  getCrossoriginAttribute (lit "/assets/app.js")
                          (crossoriginOptions (withDefaults None))
  = anonymous.
Proof.
  split; [reflexivity|].
  exact (plugin_crossorigin None (lit "/assets/app.js") eq_refl).
Defined.

(** ** The bundle after a run *)

Lemma store_keys (key : str) (item : BundleItem) (bundle : Bundle) :
  map fst (store key item bundle) = map fst bundle.
Proof.
  induction bundle as [|[k old] bundle IH]; simpl.
  - reflexivity.
  - destruct (str_eqb k key); simpl; [reflexivity | now rewrite IH].
Qed.

Lemma lookup_store_same (key : str) (item old : BundleItem) (bundle : Bundle) :
  lookup key bundle = Some old -> lookup key (store key item bundle) = Some item.
Proof.
  induction bundle as [|[k o] bundle IH]; simpl; intros H.
  - discriminate.
  - destruct (str_eqb k key) eqn:E; simpl; rewrite E; auto.
Qed.

Lemma lookup_store_other (key key' : str) (item : BundleItem) (bundle : Bundle) :
  key <> key' -> lookup key' (store key item bundle) = lookup key' bundle.
Proof.
  intros Hne. induction bundle as [|[k o] bundle IH]; simpl.
  - reflexivity.
  - destruct (str_eqb k key) eqn:E; simpl.
    + apply str_eqb_eq in E. subst k.
      destruct (str_eqb key key') eqn:E'; [|reflexivity].
      apply str_eqb_eq in E'. contradiction.
    + now rewrite IH.
Qed.

Lemma keptEntry_refl (entry : option BundleItem) : keptEntry entry entry.
Proof. destruct entry; simpl; auto. Qed.

Lemma keptEntry_trans (a b c : option BundleItem) :
  keptEntry a b -> keptEntry b c -> keptEntry a c.
Proof.
  destruct a as [i|], b as [i'|], c as [i''|]; simpl; try tauto.
  intros [-> | (Hh & f & s & t & -> & ->)] [-> | (Hh' & f' & s' & t' & E & ->)]; auto.
  - right. split; [exact Hh'|]. exists f', s', t'. auto.
  - right. split; [exact Hh|]. exists f, s, t. auto.
  - injection E as <- _. right. split; [exact Hh|]. exists f, s, t'. auto.
Qed.

Section Kept.

Variable host : Host.
Variable base : str.
Variable locals : SriOptions.
Variable scanners : Scanners.

Lemma visit_kept (bundle : Bundle) (name : str) :
  let after := run_bundle (visit host base locals scanners bundle name) in
  map fst after = map fst bundle /\
  forall key, keptEntry (lookup key bundle) (lookup key after).
Proof.
  cbv zeta. unfold visit.
  destruct (lookup name bundle) as [[f c | f src]|] eqn:Hl;
    try (simpl; split; [reflexivity | intros; apply keptEntry_refl]).
  destruct (endsWith f (lit ".html") || endsWith f (lit ".htm")) eqn:Hh;
    [|simpl; split; [reflexivity | intros; apply keptEntry_refl]].
  destruct (threePasses _ _ _ _ _ _ _) as [[h| e |] t];
    try (simpl; split; [reflexivity | intros; apply keptEntry_refl]).
  cbn [run_bundle]. split; [apply store_keys|].
  intros key. destruct (str_eqb name key) eqn:E.
  - apply str_eqb_eq in E. subst key.
    rewrite Hl, (lookup_store_same _ _ _ _ Hl). simpl.
    right. split; [exact Hh|]. exists f, src, h. auto.
  - apply str_eqb_neq in E. rewrite (lookup_store_other _ _ _ _ E).
    apply keptEntry_refl.
Qed.

Lemma forIn_kept (names : list str) :
  forall bundle,
    let after := run_bundle (forIn host base locals scanners names bundle) in
    map fst after = map fst bundle /\
    forall key, keptEntry (lookup key bundle) (lookup key after).
Proof.
  induction names as [|name names IH]; intros bundle; cbv zeta; cbn [forIn].
  - simpl. split; [reflexivity | intros; apply keptEntry_refl].
  - destruct (visit_kept bundle name) as [Hk Hv].
    destruct (run_outcome (visit host base locals scanners bundle name));
      try (split; assumption).
    cbn [run_bundle].
    destruct (IH (run_bundle (visit host base locals scanners bundle name)))
      as [Hk' Hv'].
    split; [congruence|].
    intros key. eapply keptEntry_trans; eauto.
Qed.

End Kept.

(** X17. What a run leaves of the bundle, whether it returns or throws.
    The keys are the same, in the same order; an entry that is not a
    document (a chunk, or an asset whose file name does not end in
    [.html] or [.htm]) is as it was; and a document is still an asset
    of the same file name. *)
Theorem generateBundle_keeps_entries
        (host : Host) (base : str) (locals : SriOptions) (scanners : Scanners)
        (bundle : Bundle) :
  let after := run_bundle (generateBundle host base locals scanners bundle) in
  map fst after = map fst bundle /\
  (forall key item,
      lookup key bundle = Some item -> isHtmlDocument item = false ->
      lookup key after = Some item) /\
  (forall key fileName source,
      lookup key bundle = Some (Asset fileName source) ->
      exists source', lookup key after = Some (Asset fileName source')).
Proof.
  cbv zeta. unfold generateBundle.
  destruct (forIn_kept host base locals scanners (map fst bundle) bundle)
    as [Hk Hv].
  split; [exact Hk|]. split.
  - intros key item Hl Hn. specialize (Hv key). rewrite Hl in Hv.
    destruct (lookup key _) as [item'|]; simpl in Hv; [|contradiction].
    destruct Hv as [-> | (Hh & _)]; [reflexivity | congruence].
  - intros key f src Hl. specialize (Hv key). rewrite Hl in Hv.
    destruct (lookup key _) as [item'|]; simpl in Hv; [|contradiction].
    destruct Hv as [-> | (_ & f' & s' & t' & E & ->)]; [eauto|].
    injection E as <- _. eauto.
Qed.

Lemma generateBundle_keeps_entries_witness :
  lookup (lit "assets/b.js") Sample.twoPages = Some Example.bChunk /\
  isHtmlDocument Example.bChunk = false /\
  run_outcome (generateBundle Example.host (lit "/") (withDefaults None)
                              freshScanners Sample.twoPages)
  = Thrown (AssetNotFound (lit "/assets/gone.js")) /\
  lookup (lit "assets/b.js")
         (run_bundle (generateBundle Example.host (lit "/") (withDefaults None)
                                     freshScanners Sample.twoPages))
  = Some Example.bChunk.
Proof.
  assert (H1 : lookup (lit "assets/b.js") Sample.twoPages = Some Example.bChunk)
    by reflexivity.
  assert (H2 : isHtmlDocument Example.bChunk = false) by reflexivity.
  split; [exact H1|]. split; [exact H2|].
  split; [vm_compute; reflexivity|].
  exact (proj1 (proj2 (generateBundle_keeps_entries Example.host (lit "/")
                         (withDefaults None) freshScanners Sample.twoPages))
               (lit "assets/b.js") Example.bChunk H1 H2).
Defined.

(** X18. A run that throws does not undo what it has done.  The keys
    split into those visited, the key of the document that threw, and
    the rest; the bundle it leaves is the bundle the visits before made,
    with the document that threw as those visits left it and no visit
    after it. *)
Theorem generateBundle_failure
        (host : Host) (base : str) (locals : SriOptions) (scanners : Scanners)
        (bundle : Bundle) (e : error) :
  run_outcome (generateBundle host base locals scanners bundle) = Thrown e ->
  exists visited name rest t1 t2 reached,
    map fst bundle = visited ++ name :: rest /\
    forIn host base locals scanners visited bundle
    = mkRun (Returned tt) t1 reached /\
    visit host base locals scanners reached name
    = mkRun (Thrown e) t2 reached /\
    generateBundle host base locals scanners bundle
    = mkRun (Thrown e) (t1 ++ t2) reached.
Proof.
  unfold generateBundle. generalize (map fst bundle) as names. intros names.
  revert bundle. induction names as [|name names IH]; intros bundle H.
  - simpl in H. discriminate.
  - cbn [forIn] in H |- *.
    pose proof (visit_thrown host base locals scanners bundle name) as Hvt.
    destruct (visit host base locals scanners bundle name) as [o t b] eqn:Hv.
    cbn [run_outcome run_trace run_bundle] in *.
    destruct o as [[]| e0 |].
    + destruct (IH b H) as (visited & n & rest & t1 & t2 & reached
                            & Hn & Hdone & Hfail & Hall).
      exists (name :: visited), n, rest, (t ++ t1), t2, reached.
      split; [now rewrite Hn|]. split.
      * cbn [forIn]. rewrite Hv. cbn [run_outcome run_trace run_bundle].
        now rewrite Hdone.
      * split; [exact Hfail|]. rewrite Hall. simpl. now rewrite app_assoc.
    + injection H as ->.
      destruct (Hvt e eq_refl) as [Hb _]. subst b.
      exists [], name, names, [], t, bundle.
      split; [reflexivity|]. split; [reflexivity|]. split; [exact Hv|].
      reflexivity.
    + discriminate.
Qed.

Lemma generateBundle_failure_witness :
  run_outcome (generateBundle Example.host (lit "/") (withDefaults None)
                              freshScanners Sample.twoPages)
  = Thrown (AssetNotFound (lit "/assets/gone.js")) /\
  lookup (lit "a.html")
         (run_bundle (generateBundle Example.host (lit "/") (withDefaults None)
                                     freshScanners Sample.twoPages))
  <> lookup (lit "a.html") Sample.twoPages /\
  exists visited name rest t1 t2 reached,
    map fst Sample.twoPages = visited ++ name :: rest /\
    forIn Example.host (lit "/") (withDefaults None) freshScanners visited
          Sample.twoPages = mkRun (Returned tt) t1 reached /\
    visit Example.host (lit "/") (withDefaults None) freshScanners reached name
    = mkRun (Thrown (AssetNotFound (lit "/assets/gone.js"))) t2 reached /\
    generateBundle Example.host (lit "/") (withDefaults None) freshScanners
                   Sample.twoPages
    = mkRun (Thrown (AssetNotFound (lit "/assets/gone.js"))) (t1 ++ t2) reached.
Proof.
  assert (H : run_outcome (generateBundle Example.host (lit "/") (withDefaults None)
                             freshScanners Sample.twoPages)
              = Thrown (AssetNotFound (lit "/assets/gone.js")))
    by (vm_compute; reflexivity).
  split; [exact H|]. split; [vm_compute; discriminate|].
  exact (generateBundle_failure Example.host (lit "/") (withDefaults None)
           freshScanners Sample.twoPages _ H).
Defined.

Lemma lookup_In (key : str) (item : BundleItem) (bundle : Bundle) :
  lookup key bundle = Some item -> exists k, In (k, item) bundle.
Proof.
  induction bundle as [|[k o] bundle IH]; simpl; intros H.
  - discriminate.
  - destruct (str_eqb k key).
    + injection H as ->. exists k. now left.
    + destruct (IH H) as [k' Hin]. exists k'. now right.
Qed.

(** X19. A bundle without a document comes out of a run as it went in,
    the run asking the resolver nothing. *)
Theorem generateBundle_without_document
        (host : Host) (base : str) (locals : SriOptions) (scanners : Scanners)
        (bundle : Bundle) :
  Forall (fun entry => isHtmlDocument (snd entry) = false) bundle ->
  generateBundle host base locals scanners bundle
  = mkRun (Returned tt) [] bundle.
Proof.
  intros Hno. unfold generateBundle. generalize (map fst bundle) as names.
  induction names as [|name names IH]; cbn [forIn].
  - reflexivity.
  - assert (Hv : visit host base locals scanners bundle name
                 = mkRun (Returned tt) [] bundle).
    { unfold visit. destruct (lookup name bundle) as [[f c | f src]|] eqn:Hl;
        try reflexivity.
      destruct (lookup_In _ _ _ Hl) as [k Hin].
      rewrite Forall_forall in Hno. specialize (Hno _ Hin). simpl in Hno.
      now rewrite Hno. }
    rewrite Hv. cbn [run_outcome run_bundle run_trace]. rewrite IH. reflexivity.
Qed.

Lemma generateBundle_without_document_witness :
  Forall (fun entry => isHtmlDocument (snd entry) = false) Sample.noPage /\
  generateBundle Example.host (lit "/") (withDefaults None) freshScanners
                 Sample.noPage
  = mkRun (Returned tt) [] Sample.noPage.
Proof.
  assert (H : Forall (fun entry => isHtmlDocument (snd entry) = false) Sample.noPage)
    by (repeat constructor).
  split; [exact H|].
  exact (generateBundle_without_document Example.host (lit "/") (withDefaults None)
           freshScanners Sample.noPage H).
Defined.

(** ** Installing the pass *)

Lemma hijackFirst_found (afterHook : GenerateBundle) :
  forall plugins p,
    find isAnalysisPlugin plugins = Some p ->
    exists before after,
      plugins = before ++ p :: after /\
      Forall (fun q => isAnalysisPlugin q = false) before /\
      isAnalysisPlugin p = true /\
      hijackFirst plugins afterHook
      = Some (before ++ hijackGenerateBundle p afterHook :: after).
Proof.
  induction plugins as [|q plugins IH]; intros p Hf; simpl in Hf.
  - discriminate.
  - cbn [hijackFirst]. fold (isAnalysisPlugin q).
    destruct (isAnalysisPlugin q) eqn:Hq.
    + injection Hf as <-. exists [], plugins. repeat split; auto.
    + destruct (IH p Hf) as (before & after & -> & Hb & Hp & ->).
      exists (q :: before), after. repeat split; auto.
Qed.

Lemma hijackFirst_none (afterHook : GenerateBundle) :
  forall plugins,
    find isAnalysisPlugin plugins = None -> hijackFirst plugins afterHook = None.
Proof.
  induction plugins as [|q plugins IH]; intros Hf; simpl in Hf.
  - reflexivity.
  - cbn [hijackFirst]. fold (isAnalysisPlugin q).
    destruct (isAnalysisPlugin q); [discriminate|]. now rewrite IH.
Qed.

(** X20. What [configResolved] does to the configuration.  Without a
    plugin of the name of the analysis plugin it throws; with one, it
    returns the plugins in their order, all as they were but the first
    of that name, which [hijackGenerateBundle] has been applied to. *)
Theorem configResolved_outcomes
        (host : Host) (scanners : Scanners) (options : option SriOptions)
        (config : ResolvedConfig) :
  let afterHook := generateBundle host (config_base config) (withDefaults options)
                                  scanners in
  (find isAnalysisPlugin (config_plugins config) = None ->
   configResolved host scanners options config = Thrown UnsupportedVite) /\
  (forall p,
      find isAnalysisPlugin (config_plugins config) = Some p ->
      exists before after,
        config_plugins config = before ++ p :: after /\
        Forall (fun q => isAnalysisPlugin q = false) before /\
        configResolved host scanners options config
        = Returned (before ++ hijackGenerateBundle p afterHook :: after)).
Proof.
  cbv zeta. unfold configResolved. split.
  - intros Hf. now rewrite hijackFirst_none.
  - intros p Hf.
    destruct (hijackFirst_found
                (generateBundle host (config_base config) (withDefaults options)
                                scanners) _ _ Hf)
      as (before & after & Hp & Hb & _ & ->).
    exists before, after. auto.
Qed.

Lemma configResolved_outcomes_witness :
  find isAnalysisPlugin (config_plugins Example.config) = Some Example.analysis /\
  exists before after,
    config_plugins Example.config = before ++ Example.analysis :: after /\
    Forall (fun q => isAnalysisPlugin q = false) before /\
    configResolved Example.host freshScanners None Example.config
    = Returned (before ++ hijackGenerateBundle Example.analysis
                            (generateBundle Example.host
                               (config_base Example.config) (withDefaults None)
                               freshScanners) :: after).
Proof.
  assert (H : find isAnalysisPlugin (config_plugins Example.config)
              = Some Example.analysis) by reflexivity.
  split; [exact H|].
  exact (proj2 (configResolved_outcomes Example.host freshScanners None
                  Example.config) Example.analysis H).
Defined.

(** X21. When the pass runs.  A hook that is a function, or an object
    with a handler, stays of its kind under [hijackGenerateBundle], and
    calling it calls what it was first: if that throws, the pass does
    not run and the call ends as the first did; if it returns, the pass
    runs on the bundle it left.  The name of the plugin is kept. *)
Theorem hijacked_hook
        (plugin : Plugin) (fn afterHook : GenerateBundle) (bundle : Bundle) :
  generateBundleHook plugin = HookFunction fn \/
  generateBundleHook plugin = HookObject (Some fn) ->
  let installed := hijackGenerateBundle plugin afterHook in
  name installed = name plugin /\
  (generateBundleHook plugin = HookFunction fn ->
   exists fn', generateBundleHook installed = HookFunction fn') /\
  (generateBundleHook plugin = HookObject (Some fn) ->
   exists fn', generateBundleHook installed = HookObject (Some fn')) /\
  (forall e, run_outcome (fn bundle) = Thrown e ->
             runHook (generateBundleHook installed) bundle = fn bundle) /\
  (forall t reached,
      fn bundle = mkRun (Returned tt) t reached ->
      runHook (generateBundleHook installed) bundle
      = mkRun (run_outcome (afterHook reached))
              (t ++ run_trace (afterHook reached))
              (run_bundle (afterHook reached))).
Proof.
  intros H installed. subst installed. unfold hijackGenerateBundle.
  destruct H as [H | H]; rewrite H; cbn [name generateBundleHook runHook].
  - split; [reflexivity|]. split; [eauto|]. split; [discriminate|]. split.
    + intros e He. unfold andThen. now rewrite He.
    + intros t reached Hr. unfold andThen. rewrite Hr. reflexivity.
  - split; [reflexivity|]. split; [discriminate|]. split; [eauto|]. split.
    + intros e He. unfold andThen. now rewrite He.
    + intros t reached Hr. unfold andThen. rewrite Hr. reflexivity.
Qed.

Lemma hijacked_hook_witness :
  let plugin := Sample.pluginWith (HookObject (Some Sample.failing)) in
  let pass := generateBundle Example.host (lit "/") (withDefaults None)
                             freshScanners in
  generateBundleHook plugin = HookObject (Some Sample.failing) /\
  run_outcome (Sample.failing Example.bundle) = Thrown (FetchFailed []) /\
  runHook (generateBundleHook (hijackGenerateBundle plugin pass)) Example.bundle
  = mkRun (Thrown (FetchFailed [])) [] Example.bundle /\
  run_trace (runHook (generateBundleHook
                        (hijackGenerateBundle
                           (Sample.pluginWith (HookFunction Sample.quiet)) pass))
                     Example.bundle)
  = [LookedUp (lit "assets/app.js"); LookedUp (lit "assets/b.js");
     Fetched Example.cdnStylesheet].
Proof.
  cbv zeta. split; [reflexivity|]. split; [reflexivity|]. split.
  - destruct (hijacked_hook (Sample.pluginWith (HookObject (Some Sample.failing)))
                Sample.failing
                (generateBundle Example.host (lit "/") (withDefaults None)
                                freshScanners)
                Example.bundle (or_intror eq_refl)) as (_ & _ & _ & Hthrow & _).
    rewrite (Hthrow (FetchFailed []) eq_refl). reflexivity.
  - destruct (hijacked_hook (Sample.pluginWith (HookFunction Sample.quiet))
                Sample.quiet
                (generateBundle Example.host (lit "/") (withDefaults None)
                                freshScanners)
                Example.bundle (or_introl eq_refl)) as (_ & _ & _ & _ & Hret).
    rewrite (Hret [] Example.bundle eq_refl). vm_compute. reflexivity.
Defined.

(** ** Documents after a run *)

Lemma transformHTML_grows (host : Host) (base : str) (locals : SriOptions)
      (bundle : Bundle) (regex : RegExp) (endOffset : Z) (htmlPath html out : str)
      (t : list event) :
  transformHTML host base locals bundle regex endOffset htmlPath html
  = (Returned out, t) ->
  subsequence html out.
Proof.
  unfold transformHTML.
  destruct (collectChanges _ _ _ _ _ _ _ _) as [[changes| e |] t0]; simpl;
    try discriminate.
  intros H. injection H as <- _. apply applyChanges_grows.
Qed.

Lemma threePasses_grows (host : Host) (base : str) (locals : SriOptions)
      (scanners : Scanners) (bundle : Bundle) (name html out : str)
      (t : list event) :
  threePasses host base locals scanners bundle name html = (Returned out, t) ->
  subsequence html out.
Proof.
  unfold threePasses.
  destruct (transformHTML _ _ _ _ (scriptRe scanners) _ _ _)
    as [[h1| e |] t1] eqn:H1; simpl; try discriminate.
  destruct (transformHTML _ _ _ _ (cssRe scanners) _ _ _)
    as [[h2| e |] t2] eqn:H2; simpl; try discriminate.
  destruct (transformHTML _ _ _ _ (moduleRe scanners) _ _ _)
    as [[h3| e |] t3] eqn:H3; simpl; try discriminate.
  intros H. injection H as <- _.
  apply transformHTML_grows in H1, H2, H3.
  eapply subsequence_trans; [exact H1|].
  eapply subsequence_trans; eauto.
Qed.

Lemma grownEntry_refl (host : Host) (entry : option BundleItem) :
  grownEntry host entry entry.
Proof. destruct entry; simpl; auto. Qed.

Lemma grownEntry_trans (host : Host) (a b c : option BundleItem) :
  grownEntry host a b -> grownEntry host b c -> grownEntry host a c.
Proof.
  destruct a as [i|], b as [i'|], c as [i''|]; simpl; try tauto.
  intros [-> | (f & s & s' & -> & -> & Hs)]
         [-> | (f' & u & u' & E & -> & Hu)]; auto.
  - right. exists f', u, u'. auto.
  - right. exists f, s, s'. auto.
  - injection E as <- <-. right. exists f, s, u'.
    repeat split; auto. eapply subsequence_trans; eauto.
Qed.

Section Grown.

Variable host : Host.
Variable base : str.
Variable locals : SriOptions.
Variable scanners : Scanners.

Lemma visit_grown (bundle : Bundle) (name key : str) :
  grownEntry host (lookup key bundle)
             (lookup key (run_bundle (visit host base locals scanners bundle name))).
Proof.
  unfold visit.
  destruct (lookup name bundle) as [[f c | f src]|] eqn:Hl;
    try apply grownEntry_refl.
  destruct (endsWith f (lit ".html") || endsWith f (lit ".htm"));
    [|apply grownEntry_refl].
  destruct (threePasses _ _ _ _ _ _ _) as [[h| e |] t] eqn:Ht;
    try apply grownEntry_refl.
  cbn [run_bundle]. destruct (str_eqb name key) eqn:E.
  - apply str_eqb_eq in E. subst key.
    rewrite Hl, (lookup_store_same _ _ _ _ Hl). simpl.
    right. exists f, src, (SourceText h). repeat split; auto.
    simpl. eapply threePasses_grows; eauto.
  - apply str_eqb_neq in E. rewrite (lookup_store_other _ _ _ _ E).
    apply grownEntry_refl.
Qed.

Lemma forIn_grown (names : list str) :
  forall bundle key,
    grownEntry host (lookup key bundle)
               (lookup key (run_bundle (forIn host base locals scanners names bundle))).
Proof.
  induction names as [|name names IH]; intros bundle key; cbn [forIn].
  - apply grownEntry_refl.
  - pose proof (visit_grown bundle name key) as Hv.
    destruct (run_outcome (visit host base locals scanners bundle name));
      try exact Hv.
    cbn [run_bundle]. eapply grownEntry_trans; [exact Hv | apply IH].
Qed.

End Grown.

(** X22. A run only adds to a document.  Whether the run returns or
    throws, the text of every asset of the bundle is still in the text
    the run leaves for it, in order: nothing of a page is removed or
    changed. *)
Theorem generateBundle_only_adds
        (host : Host) (base : str) (locals : SriOptions) (scanners : Scanners)
        (bundle : Bundle) (key fileName : str) (source : Source) :
  lookup key bundle = Some (Asset fileName source) ->
  exists source',
    lookup key (run_bundle (generateBundle host base locals scanners bundle))
    = Some (Asset fileName source') /\
    subsequence (sourceToString host source) (sourceToString host source').
Proof.
  intros Hl. unfold generateBundle.
  pose proof (forIn_grown host base locals scanners (map fst bundle) bundle key)
    as H.
  rewrite Hl in H. unfold grownEntry in H.
  destruct (lookup key (run_bundle _)) as [item|]; [|contradiction].
  destruct H as [-> | (f & s & s' & E & -> & Hs)].
  - exists source. split; [reflexivity | apply subsequence_refl].
  - injection E as <- <-. eauto.
Qed.

Lemma generateBundle_only_adds_witness :
  lookup (lit "index.html") Example.bundle
  = Some (Asset (lit "index.html") (SourceText Example.page)) /\
  exists source',
    lookup (lit "index.html")
           (run_bundle (generateBundle Example.host (lit "/") (withDefaults None)
                                       freshScanners Example.bundle))
    = Some (Asset (lit "index.html") source') /\
    subsequence Example.page (sourceToString Example.host source').
Proof.
  assert (H : lookup (lit "index.html") Example.bundle
              = Some (Asset (lit "index.html") (SourceText Example.page)))
    by reflexivity.
  split; [exact H|].
  exact (generateBundle_only_adds Example.host (lit "/") (withDefaults None)
           freshScanners Example.bundle (lit "index.html") (lit "index.html")
           (SourceText Example.page) H).
Defined.
